(** * node-mysql-dbc: connection wrapper, transaction runner and SQL builders

    A shallow embedding of [index.js].  The JavaScript methods of
    [Connection] become Rocq functions of the same names.  Asynchronous
    code is a program of a small free monad [Prog] whose only effects are
    the three calls the module makes on the mysql2 driver
    ([pool.getConnection], [conn.query], [conn.release]); a driver is a
    state machine answering those calls, and [exec] runs a program against
    it, recording every call in a trace. *)

From Stdlib Require Import Ascii String List ZArith Bool Arith Lia.
Import ListNotations.
Local Open Scope list_scope.
Local Open Scope string_scope.

Set Implicit Arguments.

(** ** JavaScript data *)

(** Values bound to [?] placeholders and stored under record keys.
    [SInherited name] is what reading [name] gives on an object that has
    no such property of its own but inherits one from [Object.prototype]
    (the function [toString], say). *)
Inductive Scalar : Type :=
| SUndefined
| SNull
| SBool (b : bool)
| SNum (n : Z)
| SStr (s : string)
| SInherited (name : string).

(** A record is the list of its own properties in the order
    [Reflect.ownKeys] enumerates them. *)
Definition Record : Type := list (string * Scalar).

(** Values that travel back from the driver and out of the callbacks: a
    scalar, an array of rows, or one object such as mysql2's result
    header. *)
Inductive Value : Type :=
| VScalar (s : Scalar)
| VArray (rows : list Record)
| VObject (props : Record).

Definition undefined : Value := VScalar SUndefined.

(** What JavaScript code can throw, or a promise can be rejected with.
    [RollbackError] is an instance of the class this module declares;
    [CallerError name message] is an instance of a class the caller
    declares under the name [name]. *)
Inductive Exn : Type :=
| Error (message : string)
| RollbackError (message : string)
| TypeError (message : string)
| DriverError (code : string)
| RangeError (message : string)
| CallerError (name message : string).

(** [err instanceof RollbackError] *)
Definition instanceof_RollbackError (err : Exn) : bool :=
  match err with
  | RollbackError _ => true
  | _ => false
  end.

(** A synchronous call either throws or returns. *)
Definition Sync (A : Type) : Type := (Exn + A)%type.

Definition ownKeys (info : Record) : list string := map fst info.

(** [Reflect.ownKeys(x)] where [x] may be [undefined] (an array read
    out of range). *)
Definition Reflect_ownKeys (x : option Record) : Sync (list string) :=
  match x with
  | Some info => inr (ownKeys info)
  | None => inl (TypeError "Reflect.ownKeys called on non-object")
  end.

(** [info[key]] for a key the record has, and for a key that is no
    property of [Object.prototype] either. *)
Fixpoint get (info : Record) (key : string) : Scalar :=
  match info with
  | [] => SUndefined
  | (k, v) :: rest => if String.eqb k key then v else get rest key
  end.

(** The properties every record inherits from [Object.prototype]. *)
Definition Object_prototype_keys : list string :=
  ["constructor"; "__defineGetter__"; "__defineSetter__"; "hasOwnProperty";
   "__lookupGetter__"; "__lookupSetter__"; "isPrototypeOf";
   "propertyIsEnumerable"; "toString"; "valueOf"; "__proto__";
   "toLocaleString"].

(** [obj[key]] for any key: the record's own property, else the one it
    inherits, else [undefined]. *)
Definition read (obj : Record) (key : string) : Scalar :=
  if existsb (String.eqb key) (ownKeys obj) then get obj key
  else if existsb (String.eqb key) Object_prototype_keys then SInherited key
  else SUndefined.

(** [[].concat.apply([], list)]: [apply] passes the rows as so many
    arguments, and throws a [RangeError] when they are more than the
    engine accepts. *)
Definition flatten (max_arguments : positive) (list : list (list Scalar))
  : Sync (Datatypes.list Scalar) :=
  if (length list <=? Pos.to_nat max_arguments)%nat then inr (concat list)
  else inl (RangeError "Maximum call stack size exceeded").

(** [v.name] on a value that came back from the driver. *)
Definition get_property (v : Value) (name : string) : Sync Value :=
  match v with
  | VScalar SUndefined | VScalar SNull =>
      inl (TypeError "Cannot read properties of undefined")
  | VObject props => inr (VScalar (get props name))
  | _ => inr undefined
  end.

(** [xs.join(sep)] on an array of strings. *)
Fixpoint join (sep : string) (xs : list string) : string :=
  match xs with
  | [] => ""
  | x :: rest =>
      match rest with
      | [] => x
      | _ :: _ => x ++ sep ++ join sep rest
      end
  end.

(** [for (let i = start; i < start + count; i += 1) body] threading the
    variables the body assigns. *)
Fixpoint for_range (St : Type) (i count : nat) (body : nat -> St -> St)
    (s : St) : St :=
  match count with
  | O => s
  | S c => for_range (S i) c body (body i s)
  end.

(** ** The driver and the programs that talk to it *)

(** Handles of the driver's objects: the pool [mysql.createPool] made and
    the pooled connections it hands out. *)
Definition Pool : Type := nat.
Definition ConnId : Type := nat.

(** mysql2 resolves [query] with a two-element array. *)
Definition QueryResult : Type := (Value * Value)%type.

Inductive Settled (A : Type) : Type :=
| Fulfilled (a : A)
| Rejected (e : Exn).
Arguments Fulfilled {A} a.
Arguments Rejected {A} e.

(** An asynchronous computation: it returns, throws, or makes one of the
    three driver calls and goes on with what the driver answers.
    [getConnection] and [query] return promises, which settle either way;
    [release] returns nothing and is taken not to throw.  A program is a
    finite tree, so every promise in it settles. *)
Inductive Prog (A : Type) : Type :=
| Ret (a : A)
| Throw (e : Exn)
| GetConnection (pool : Pool) (k : Settled ConnId -> Prog A)
| Query (c : ConnId) (sql : string) (args : list Scalar)
        (k : Settled QueryResult -> Prog A)
| Release (c : ConnId) (k : Prog A).
Arguments Ret {A} a.
Arguments Throw {A} e.

Fixpoint bind (A B : Type) (p : Prog A) (f : A -> Prog B) : Prog B :=
  match p with
  | Ret a => f a
  | Throw e => Throw e
  | GetConnection pool k => GetConnection pool (fun s => bind (k s) f)
  | Query c sql args k => Query c sql args (fun s => bind (k s) f)
  | Release c k => Release c (bind k f)
  end.

Notation "x <- p ;; q" := (bind p (fun x => q))
  (at level 100, p at next level, right associativity).
Notation "p ;; q" := (bind p (fun _ => q))
  (at level 100, right associativity).

(** [try { p } catch (err) { h err }] *)
Fixpoint try_catch (A : Type) (p : Prog A) (h : Exn -> Prog A) : Prog A :=
  match p with
  | Ret a => Ret a
  | Throw e => h e
  | GetConnection pool k => GetConnection pool (fun s => try_catch (k s) h)
  | Query c sql args k => Query c sql args (fun s => try_catch (k s) h)
  | Release c k => Release c (try_catch k h)
  end.

(** [try { return p } finally { fin }]: [fin] runs on both exits and an
    error of [fin] replaces the pending completion. *)
Fixpoint try_finally (A : Type) (p : Prog A) (fin : Prog unit) : Prog A :=
  match p with
  | Ret a => fin ;; Ret a
  | Throw e => fin ;; Throw e
  | GetConnection pool k => GetConnection pool (fun s => try_finally (k s) fin)
  | Query c sql args k => Query c sql args (fun s => try_finally (k s) fin)
  | Release c k => Release c (try_finally k fin)
  end.

(** [await x] where [x] is the completion of a synchronous call that
    returns a promise: a synchronous throw surfaces at the same place as a
    rejection. *)
Definition await (A : Type) (x : Sync (Prog A)) : Prog A :=
  match x with
  | inl e => Throw e
  | inr p => p
  end.

(** A synchronous computation run inside a promise callback. *)
Definition lift_sync (A : Type) (x : Sync A) : Prog A :=
  match x with
  | inl e => Throw e
  | inr a => Ret a
  end.

(** Awaiting a driver promise. *)
Definition settle (A : Type) (s : Settled A) : Prog A :=
  match s with
  | Fulfilled a => Ret a
  | Rejected e => Throw e
  end.

Inductive Event : Type :=
| EvGetConnection (pool : Pool)
| EvQuery (c : ConnId) (sql : string) (args : list Scalar)
| EvRelease (c : ConnId).

Inductive Outcome (A : Type) : Type :=
| Returned (a : A)
| Thrown (e : Exn).
Arguments Returned {A} a.
Arguments Thrown {A} e.

Section Exec.
Variable World : Type.
Variable getConnection_step : Pool -> World -> Settled ConnId * World.
Variable query_step :
  ConnId -> string -> list Scalar -> World -> Settled QueryResult * World.
Variable release_step : ConnId -> World -> World.

Fixpoint exec (A : Type) (p : Prog A) (w : World)
  : Outcome A * list Event * World :=
  match p with
  | Ret a => (Returned a, [], w)
  | Throw e => (Thrown e, [], w)
  | GetConnection pool k =>
      let '(s, w1) := getConnection_step pool w in
      let '(o, tr, w2) := exec (k s) w1 in
      (o, EvGetConnection pool :: tr, w2)
  | Query c sql args k =>
      let '(s, w1) := query_step c sql args w in
      let '(o, tr, w2) := exec (k s) w1 in
      (o, EvQuery c sql args :: tr, w2)
  | Release c k =>
      let '(o, tr, w2) := exec k (release_step c w) in
      (o, EvRelease c :: tr, w2)
  end.

(** A call that throws before it has made any call on the driver. *)
Definition throws_synchronously (A : Type) (call : Sync (Prog A)) (e : Exn)
  : Prop :=
  call = inl e /\ forall w, exec (await call) w = (Thrown e, [], w).
End Exec.

(** ** The pool holder *)

Record Pooler : Type := { pool : option Pool }.

Definition getPool (this : Pooler) : Sync Pool :=
  match pool this with
  | None => inl (Error "database not connected")
  | Some p => inr p
  end.

Definition setPool (this : Pooler) (p : Pool) : Pooler := {| pool := Some p |}.

(** ** Connection *)

Record Connection : Type := { conn : ConnId }.

(** [conn.query(sql, args)] of the driver, as a promise. *)
Definition conn_query (c : ConnId) (sql : string) (args : list Scalar)
  : Prog QueryResult :=
  Query c sql args (@settle QueryResult).

Definition getRows (result : QueryResult) : Value := fst result.

Definition getInfo (result : QueryResult) : Value := fst result.

Definition Connection_new (pooler : Pooler) : Prog Connection :=
  match getPool pooler with
  | inl e => Throw e
  | inr p => GetConnection p (fun s => c <- settle s ;; Ret {| conn := c |})
  end.

Definition release (this : Connection) : Prog unit :=
  Release (conn this) (Ret tt).

Definition Connection_run (pooler : Pooler)
    (func : Connection -> list Value -> Sync (Prog Value)) (args : list Value)
  : Prog Value :=
  conn <- Connection_new pooler ;;
  try_finally (await (func conn args)) (release conn).

Definition query (this : Connection) (sql : string) (args : list Scalar)
  : Prog QueryResult :=
  conn_query (conn this) sql args.

Definition doInsert (this : Connection) (sql : string) (args : list Scalar)
  : Prog Value :=
  result <- conn_query (conn this) sql args ;;
  lift_sync (get_property (getInfo result) "insertId").

Definition doUpdate (this : Connection) (sql : string) (args : list Scalar)
  : Prog Value :=
  result <- conn_query (conn this) sql args ;;
  lift_sync (get_property (getInfo result) "affectedRows").

(** The three transaction statements carry no bound values. *)
Definition doBegin (this : Connection) : Prog QueryResult :=
  conn_query (conn this) "BEGIN" [].

Definition doCommit (this : Connection) : Prog QueryResult :=
  conn_query (conn this) "COMMIT" [].

Definition doRollback (this : Connection) : Prog QueryResult :=
  conn_query (conn this) "ROLLBACK" [].

Definition doTransaction (this : Connection)
    (fn : Connection -> Sync (Prog Value)) : Prog Value :=
  doBegin this ;;
  try_catch
    (res <- await (fn this) ;;
     doCommit this ;;
     Ret res)
    (fun err =>
       doRollback this ;;
       if negb (instanceof_RollbackError err) then Throw err
       else Ret undefined).

Definition insertMany (max_arguments : positive) (this : Connection)
    (table : string) (fields : list string) (list : list (list Scalar))
  : Sync (Prog Value) :=
  let placeholders :=
    for_range 0 (length fields) (fun _ placeholders => (placeholders ++ ["?"])%list) [] in
  let fs := "(" ++ join ", " fields ++ ")" in
  let vs := "(" ++ join ", " placeholders ++ ")" in
  let sql := "INSERT INTO " ++ table ++ " " ++ fs ++ " VALUES " in
  let sql :=
    for_range 0 (length list)
      (fun i sql =>
         let sql := if (0 <? i)%nat then sql ++ ", " else sql in
         sql ++ vs)
      sql in
  match flatten max_arguments list with
  | inl e => inl e
  | inr args => inr (doInsert this sql args)
  end.

Definition insertManyObjects (max_arguments : positive) (this : Connection)
    (table : string) (objects : list Record) : Sync (Prog Value) :=
  match Reflect_ownKeys (nth_error objects 0) with
  | inl e => inl e
  | inr fields =>
      let list := map (fun obj => map (fun key => read obj key) fields) objects in
      insertMany max_arguments this table fields list
  end.

Definition updateOne (this : Connection) (table : string) (id : Scalar)
    (fields : list string) (values : list Scalar) : Sync (Prog Value) :=
  if Nat.eqb (length fields) 0 then inl (Error "no fields to update")
  else if negb (Nat.eqb (length values) (length fields)) then
    inl (Error "values.length !== fields.length")
  else
    let fs := join ", " (map (fun field => field ++ " = ?") fields) in
    let sql := "UPDATE " ++ table ++ " SET " ++ fs ++ " WHERE id = ?" in
    let args := (values ++ [id])%list in
    inr (doUpdate this sql args).

Definition updateOneByFields (this : Connection) (table : string)
    (fields : list string) (values : list Scalar)
    (whereFields : list string) (whereValues : list Scalar)
  : Sync (Prog Value) :=
  if Nat.eqb (length fields) 0 then inl (Error "no fields to update")
  else if negb (Nat.eqb (length values) (length fields)) then
    inl (Error "values.length !== fields.length")
  else if negb (Nat.eqb (length whereFields) (length whereValues)) then
    inl (Error "where values.length !== where fields.length")
  else
    let fs := join ", " (map (fun field => field ++ " = ?") fields) in
    let whereFs := join " AND " (map (fun field => field ++ " = ?") whereFields) in
    let sql := "update " ++ table ++ " set " ++ fs ++ " where " ++ whereFs in
    let args := (values ++ whereValues)%list in
    inr (doUpdate this sql args).

(** The body of the [for ... of] loop of [updateOneObject]. *)
Definition updateOneObject_step (info : Record)
    (acc : list string * list Scalar) (key : string)
  : list string * list Scalar :=
  let (fields, values) := acc in
  if negb (String.eqb key "id") && negb (String.eqb key "ctime")
     && negb (String.eqb key "mtime")
  then ((fields ++ [key])%list, (values ++ [get info key])%list)
  else (fields, values).

Definition updateOneObject (this : Connection) (table : string)
    (info : Record) : Sync (Prog Value) :=
  let (fields, values) :=
    fold_left (updateOneObject_step info) (ownKeys info) ([], []) in
  updateOne this table (get info "id") fields values.

(** ** The facade *)

Definition withConnection (pooler : Pooler)
    (fn : Connection -> list Value -> Sync (Prog Value))
  : list Value -> Prog Value :=
  fun arguments => Connection_run pooler fn arguments.

(** ** The other methods of Connection *)

(** [v[0]] on a value that came back from the driver. *)
Definition element0 (v : Value) : Sync Value :=
  match v with
  | VScalar SUndefined | VScalar SNull =>
      inl (TypeError "Cannot read properties of undefined")
  | VScalar (SStr (String ch _)) => inr (VScalar (SStr (String ch EmptyString)))
  | VScalar _ => inr undefined
  | VArray [] => inr undefined
  | VArray (row :: _) => inr (VObject row)
  | VObject props => inr (VScalar (get props "0"))
  end.

(** JavaScript's truthiness. *)
Definition truthy (v : Value) : bool :=
  match v with
  | VScalar SUndefined | VScalar SNull => false
  | VScalar (SBool b) => b
  | VScalar (SNum n) => negb (Z.eqb n 0)
  | VScalar (SStr s) => negb (String.eqb s "")
  | VScalar (SInherited _) => true
  | VArray _ | VObject _ => true
  end.

(** [a || b] *)
Definition js_or (a b : Value) : Value := if truthy a then a else b.

Definition doSelect (this : Connection) (sql : string) (args : list Scalar)
  : Prog Value :=
  result <- conn_query (conn this) sql args ;;
  Ret (getRows result).

Definition doSelectOne (this : Connection) (sql : string) (args : list Scalar)
  : Prog Value :=
  rows <- doSelect this sql args ;;
  first <- lift_sync (element0 rows) ;;
  Ret (js_or first (VScalar SNull)).

Definition doDelete (this : Connection) (sql : string) (args : list Scalar)
  : Prog Value :=
  result <- conn_query (conn this) sql args ;;
  lift_sync (get_property (getInfo result) "affectedRows").

Definition selectAll (this : Connection) (table : string) : Prog Value :=
  let sql := "SELECT * FROM " ++ table in
  let args := [] in
  doSelect this sql args.

Definition selectManyByField (this : Connection) (table field : string)
    (value : Scalar) : Prog Value :=
  let sql := "SELECT * FROM " ++ table ++ " WHERE " ++ field ++ " = ?" in
  let args := [value] in
  doSelect this sql args.

Definition selectManyByFields (this : Connection) (table : string)
    (fields : list string) (values : list Scalar) : Prog Value :=
  let fs := join " AND " (map (fun field => field ++ " = ?") fields) in
  let sql := "SELECT * FROM " ++ table ++ " WHERE " ++ fs in
  let args := values in
  doSelect this sql args.

Definition selectOneByField (this : Connection) (table field : string)
    (value : Scalar) : Prog Value :=
  let sql :=
    "SELECT * FROM " ++ table ++ " WHERE " ++ field ++ " = ? LIMIT 1" in
  let args := [value] in
  doSelectOne this sql args.

Definition selectById (this : Connection) (table : string) (id : Scalar)
  : Prog Value :=
  selectOneByField this table "id" id.

Definition selectOneByFields (this : Connection) (table : string)
    (fields : list string) (values : list Scalar) : Prog Value :=
  let fs := join " AND " (map (fun field => field ++ " = ?") fields) in
  let sql := "SELECT * FROM " ++ table ++ " WHERE " ++ fs ++ " LIMIT 1" in
  let args := values in
  doSelectOne this sql args.

Definition selectOneByObject (this : Connection) (table : string)
    (info : Record) : Prog Value :=
  let fields := ownKeys info in
  let values := map (fun key => get info key) fields in
  selectOneByFields this table fields values.

Definition insertOne (this : Connection) (table : string)
    (fields : list string) (values : list Scalar) : Prog Value :=
  let fs := join ", " fields in
  let vs := join ", " (map (fun field => "?") fields) in
  let sql := "INSERT INTO " ++ table ++ " (" ++ fs ++ ") VALUES (" ++ vs ++ ")" in
  doInsert this sql values.

Definition insertOneObject (this : Connection) (table : string)
    (info : Record) : Prog Value :=
  let fields := ownKeys info in
  let values := map (fun key => get info key) fields in
  insertOne this table fields values.

Definition deleteByField (this : Connection) (table field : string)
    (value : Scalar) : Prog Value :=
  let sql := "DELETE FROM " ++ table ++ " WHERE " ++ field ++ " = ?" in
  let args := [value] in
  doDelete this sql args.

Definition deleteById (this : Connection) (table : string) (id : Scalar)
  : Prog Value :=
  deleteByField this table "id" id.

(** ** Initialization *)

(** [target[key] = value]: an existing key keeps its place, a new one goes
    last. *)
Fixpoint set (target : Record) (key : string) (value : Scalar) : Record :=
  match target with
  | [] => [(key, value)]
  | (k, v) :: rest =>
      if String.eqb k key then (k, value) :: rest
      else (k, v) :: set rest key value
  end.

(** [Object.assign(target, source)] *)
Definition Object_assign (target source : Record) : Record :=
  fold_left (fun target key => set target key (get source key))
    (ownKeys source) target.

Record Dbc : Type := { dbcPooler : Pooler }.

(** [new Dbc()], which is what [createDbc] returns. *)
Definition createDbc : Dbc := {| dbcPooler := {| pool := None |} |}.

(** The configuration [init] hands to [mysql.createPool]. *)
Definition poolConfig (info : Record) : Record :=
  Object_assign [("connectionLimit", SNum 20); ("queueLimit", SNum 10)] info.

(** [init], given the driver's [mysql.createPool]. *)
Definition init (createPool : Record -> Pool) (this : Dbc) (info : Record)
  : Dbc :=
  {| dbcPooler := setPool (dbcPooler this) (createPool (poolConfig info)) |}.

(** ** Reading a trace *)

Definition is_statement (sql : string) (ev : Event) : bool :=
  match ev with
  | EvQuery _ s _ => String.eqb s sql
  | _ => false
  end.

(** How many times the statement [sql] was sent. *)
Definition count_statement (sql : string) (tr : list Event) : nat :=
  length (filter (is_statement sql) tr).

Definition is_release (c : ConnId) (ev : Event) : bool :=
  match ev with
  | EvRelease c' => Nat.eqb c' c
  | _ => false
  end.

(** How many times connection [c] was handed back to the pool. *)
Definition count_release (c : ConnId) (tr : list Event) : nat :=
  length (filter (is_release c) tr).

(** ** What the documentation calls the shapes *)

Definition NoFieldsToUpdate : Exn := Error "no fields to update".

Definition is_ArgumentCountMismatch (e : Exn) : bool :=
  match e with
  | Error m =>
      String.eqb m "values.length !== fields.length"
      || String.eqb m "where values.length !== where fields.length"
  | _ => false
  end.

(** The error a failed validation raises: the empty field list is
    checked first. *)
Definition validation_error_for (fields : list string) (e : Exn) : Prop :=
  if Nat.eqb (length fields) 0 then e = NoFieldsToUpdate
  else is_ArgumentCountMismatch e = true.

(** [f1 = ?<sep>f2 = ?<sep>...] *)
Definition assignments (sep : string) (fields : list string) : string :=
  join sep (map (fun f => f ++ " = ?") fields).

(** [(?, ..., ?)] with [k] placeholders. *)
Definition value_tuple (k : nat) : string :=
  "(" ++ join ", " (repeat "?" k) ++ ")".

(** [INSERT INTO T (f1, ..., fk) VALUES (?, ..., ?), ..., (?, ..., ?)]
    with the value tuple written [n] times. *)
Definition insert_many_shape (table : string) (fields : list string) (n : nat)
  : string :=
  "INSERT INTO " ++ table ++ " (" ++ join ", " fields ++ ") VALUES "
  ++ join ", " (repeat (value_tuple (length fields)) n).

(** [UPDATE T SET f1 = ?, ... WHERE id = ?] *)
Definition update_by_id_shape (table : string) (fields : list string) : string :=
  "UPDATE " ++ table ++ " SET " ++ assignments ", " fields ++ " WHERE id = ?".

(** [UPDATE T SET f1 = ?, ... WHERE w1 = ? AND ...], as the table of
    shapes writes it. *)
Definition update_by_fields_shape (table : string)
    (fields whereFields : list string) : string :=
  "UPDATE " ++ table ++ " SET " ++ assignments ", " fields
  ++ " WHERE " ++ assignments " AND " whereFields.

(** The same statement with the keywords as [updateOneByFields] spells
    them. *)
Definition update_by_fields_text (table : string)
    (fields whereFields : list string) : string :=
  "update " ++ table ++ " set " ++ assignments ", " fields
  ++ " where " ++ assignments " AND " whereFields.

(** The keys [updateOneObject] never writes. *)
Definition is_metadata_key (key : string) : bool :=
  String.eqb key "id" || String.eqb key "ctime" || String.eqb key "mtime".

(** The keys of a record that go into the SET clause, in the record's
    order. *)
Definition set_keys (info : Record) : list string :=
  filter (fun key => negb (is_metadata_key key)) (ownKeys info).

(** The number of [?] placeholders in a statement. *)
Fixpoint count_placeholders (sql : string) : nat :=
  match sql with
  | EmptyString => 0
  | String ch rest =>
      (if Ascii.eqb ch "?"%char then 1 else 0) + count_placeholders rest
  end.

(** An identifier that brings no placeholder of its own. *)
Definition plain (name : string) : bool :=
  Nat.eqb (count_placeholders name) 0.

(** ** A driver to run examples against

    Its state counts the statements received; statements whose text is in
    [failing] are rejected, the others resolve with a result header. *)

Definition ok_result : QueryResult :=
  (VObject [("insertId", SNum 1); ("affectedRows", SNum 1)], undefined).

Definition mock_getConnection (pool : Pool) (w : nat) : Settled ConnId * nat :=
  (Fulfilled 7, w).

Definition mock_query (failing : list string)
    (c : ConnId) (sql : string) (args : list Scalar) (w : nat)
  : Settled QueryResult * nat :=
  if existsb (String.eqb sql) failing
  then (Rejected (DriverError "ECONNRESET"), S w)
  else (Fulfilled ok_result, S w).

Definition mock_release (c : ConnId) (w : nat) : nat := w.

Definition mock_exec (failing : list string) (A : Type) (p : Prog A) (w : nat)
  : Outcome A * list Event * nat :=
  exec mock_getConnection (mock_query failing) mock_release p w.

(** A connection, three units of work and a wrapped function for the
    examples. *)

Definition sample_connection : Connection := {| conn := 7 |}.

Definition sample_insert (this : Connection) : Prog Value :=
  doInsert this "INSERT INTO t (a) VALUES (?)" [SNum 1].

(** Inserts a row and returns the new id. *)
Definition good_work (this : Connection) : Sync (Prog Value) :=
  inr (sample_insert this).


(** Inserts a row and then fails. *)
Definition failing_work (this : Connection) : Sync (Prog Value) :=
  inr (sample_insert this ;; Throw (Error "boom")).

(** A function for [withConnection] that throws while being invoked. *)
Definition throwing_function (this : Connection) (arguments : list Value)
  : Sync (Prog Value) :=
  inl (Error "bad argument").

Definition sample_record : Record :=
  [("id", SNum 5); ("ctime", SStr "X"); ("mtime", SStr "Y"); ("name", SStr "n")].

Definition metadata_record : Record :=
  [("id", SNum 5); ("ctime", SStr "X"); ("mtime", SStr "Y")].

(** No key occurs twice, as in the keys of any JavaScript object. *)
Fixpoint distinct (keys : list string) : bool :=
  match keys with
  | [] => true
  | key :: rest => negb (existsb (String.eqb key) rest) && distinct rest
  end.

(** A program that makes exactly one call to the driver, a [query] on
    the connection of [this]. *)
Definition one_round_trip (World : Type)
    (getConnection_step : Pool -> World -> Settled ConnId * World)
    (query_step :
       ConnId -> string -> list Scalar -> World -> Settled QueryResult * World)
    (release_step : ConnId -> World -> World)
    (this : Connection) (A : Type) (p : Prog A) : Prop :=
  forall w, exists o sql args,
    exec getConnection_step query_step release_step p w
    = (o, [EvQuery (conn this) sql args],
       snd (query_step (conn this) sql args w)).

(** A call that either throws synchronously or sends one statement that has
    as many placeholders as arguments. *)
Definition aligned_or_throws (send : string -> list Scalar -> Prog Value)
    (call : Sync (Prog Value)) : Prop :=
  match call with
  | inl _ => True
  | inr p =>
      exists sql args,
        p = send sql args /\ count_placeholders sql = length args
  end.

(** A driver that answers every query with the rows it is given. *)
Definition rows_query (rows : list Record)
    (c : ConnId) (sql : string) (args : list Scalar) (w : nat)
  : Settled QueryResult * nat :=
  (Fulfilled (VArray rows, undefined), S w).

(** A pool that hands out no connection. *)
Definition failing_getConnection (pool : Pool) (w : nat)
  : Settled ConnId * nat :=
  (Rejected (DriverError "ER_CON_COUNT_ERROR"), w).

(** A record with no [id]. *)
Definition anonymous_record : Record :=
  [("name", SStr "n"); ("age", SNum 3)].

(** A function for [withConnection] that runs a transaction. *)
Definition transaction_function (this : Connection) (arguments : list Value)
  : Sync (Prog Value) :=
  inr (doTransaction this good_work).

(** * Properties *)

(** ** Strings and loops *)

Lemma append_assoc (a b c : string) : (a ++ b) ++ c = a ++ b ++ c.
Proof.
  induction a as [|ch a IH]; simpl; [reflexivity | now rewrite IH].
Qed.

Lemma append_nil_r (a : string) : a ++ "" = a.
Proof.
  induction a as [|ch a IH]; simpl; [reflexivity | now rewrite IH].
Qed.

Lemma join_cons_cons (sep x y : string) (rest : list string) :
  join sep (x :: y :: rest) = x ++ sep ++ join sep (y :: rest).
Proof. reflexivity. Qed.

(** Pushing one placeholder per turn builds [repeat "?" count]. *)
Lemma push_loop_repeat (count i : nat) (acc : list string) :
  for_range i count (fun _ placeholders => (placeholders ++ ["?"])%list) acc
  = (acc ++ repeat "?" count)%list.
Proof.
  revert i acc; induction count as [|count IH]; intros i acc; simpl.
  - now rewrite app_nil_r.
  - rewrite IH, <- app_assoc. reflexivity.
Qed.

(** After the first turn every turn of the VALUES loop appends a comma and
    a tuple. *)
Lemma values_loop_tail (vs : string) (count i : nat) (sql : string) :
  for_range (S i) count
    (fun i sql =>
       let sql := if (0 <? i)%nat then sql ++ ", " else sql in sql ++ vs)
    (sql ++ vs)
  = sql ++ join ", " (repeat vs (S count)).
Proof.
  revert i sql; induction count as [|count IH]; intros i sql.
  - reflexivity.
  - cbn [for_range]. cbv zeta.
    replace (0 <? S i)%nat with true by reflexivity.
    rewrite IH.
    change (repeat vs (S (S count))) with (vs :: vs :: repeat vs count).
    rewrite join_cons_cons.
    change (vs :: repeat vs count) with (repeat vs (S count)).
    now rewrite !append_assoc.
Qed.

Lemma values_loop_join (vs : string) (count : nat) (sql : string) :
  for_range 0 count
    (fun i sql =>
       let sql := if (0 <? i)%nat then sql ++ ", " else sql in sql ++ vs)
    sql
  = sql ++ join ", " (repeat vs count).
Proof.
  destruct count as [|count].
  - simpl. now rewrite append_nil_r.
  - cbn [for_range]. cbv zeta.
    replace (0 <? 0)%nat with false by reflexivity.
    apply values_loop_tail.
Qed.

(** The statement text [insertMany] builds with its two loops. *)
Lemma insertMany_text (table : string) (fields : list string) (n : nat) :
  for_range 0 n
    (fun i sql =>
       let sql := if (0 <? i)%nat then sql ++ ", " else sql in
       sql ++ ("(" ++ join ", "
                 (for_range 0 (length fields)
                    (fun _ placeholders => (placeholders ++ ["?"])%list) [])
               ++ ")"))
    ("INSERT INTO " ++ table ++ " " ++ ("(" ++ join ", " fields ++ ")")
     ++ " VALUES ")
  = insert_many_shape table fields n.
Proof.
  rewrite values_loop_join, push_loop_repeat. simpl app.
  unfold insert_many_shape, value_tuple.
  rewrite ?append_assoc. simpl. rewrite ?append_assoc. reflexivity.
Qed.

(** Rows of equal width are laid out one after the other: the value of
    field [j] of row [i] is argument number [i * k + j]. *)
Lemma concat_rows_index (A : Type) (k : nat) (rows : list (list A)) :
  Forall (fun row => length row = k) rows ->
  forall i j row, nth_error rows i = Some row -> (j < k)%nat ->
    nth_error (concat rows) (i * k + j) = nth_error row j.
Proof.
  induction 1 as [|r rows Hr Hrows IH]; intros i j row Hi Hj.
  - destruct i; discriminate.
  - destruct i as [|i]; simpl in *.
    + injection Hi as <-. apply nth_error_app1. lia.
    + rewrite nth_error_app2 by lia.
      replace (k + i * k + j - length r)%nat with (i * k + j)%nat by lia.
      now apply IH.
Qed.

(** ** The [for ... of] loop of [updateOneObject] *)

Lemma updateOneObject_step_filter (info : Record) (keys fields : list string)
    (values : list Scalar) :
  fold_left (updateOneObject_step info) keys (fields, values)
  = ((fields ++ filter (fun key => negb (is_metadata_key key)) keys)%list,
     (values
      ++ map (get info)
           (filter (fun key => negb (is_metadata_key key)) keys))%list).
Proof.
  revert fields values; induction keys as [|key keys IH]; intros fields values.
  - simpl. now rewrite !app_nil_r.
  - simpl fold_left. unfold updateOneObject_step at 1.
    replace (negb (String.eqb key "id") && negb (String.eqb key "ctime")
             && negb (String.eqb key "mtime"))%bool
      with (negb (is_metadata_key key))
      by (unfold is_metadata_key; now rewrite !negb_orb).
    simpl filter. destruct (negb (is_metadata_key key)).
    + rewrite IH. simpl. now rewrite <- !app_assoc.
    + apply IH.
Qed.

Lemma updateOneObject_loop (info : Record) :
  fold_left (updateOneObject_step info) (ownKeys info) ([], [])
  = (set_keys info, map (get info) (set_keys info)).
Proof. apply updateOneObject_step_filter. Qed.

Lemma set_keys_spec (info : Record) (key : string) :
  In key (set_keys info) <->
  In key (ownKeys info) /\ key <> "id" /\ key <> "ctime" /\ key <> "mtime".
Proof.
  unfold set_keys, is_metadata_key. rewrite filter_In, !negb_orb, !andb_true_iff,
    !negb_true_iff, !String.eqb_neq. tauto.
Qed.

(** ** Counting in traces *)

Lemma count_statement_app (sql : string) (tr1 tr2 : list Event) :
  count_statement sql (tr1 ++ tr2)%list
  = (count_statement sql tr1 + count_statement sql tr2)%nat.
Proof.
  unfold count_statement. now rewrite filter_app, length_app.
Qed.

Lemma count_release_app (c : ConnId) (tr1 tr2 : list Event) :
  count_release c (tr1 ++ tr2)%list
  = (count_release c tr1 + count_release c tr2)%nat.
Proof.
  unfold count_release. now rewrite filter_app, length_app.
Qed.

(** ** Running programs against an arbitrary driver *)

Section Driver.
Variable World : Type.
Variable getConnection_step : Pool -> World -> Settled ConnId * World.
Variable query_step :
  ConnId -> string -> list Scalar -> World -> Settled QueryResult * World.
Variable release_step : ConnId -> World -> World.

Local Abbreviation execute :=
  (exec getConnection_step query_step release_step).
Local Abbreviation throws_sync :=
  (throws_synchronously getConnection_step query_step release_step).

Ltac step_exec IH :=
  simpl;
  repeat match goal with
    | |- context [getConnection_step ?p ?w] =>
        destruct (getConnection_step p w) as [? ?]
    | |- context [query_step ?c ?s ?a ?w] =>
        destruct (query_step c s a w) as [? ?]
    end;
  rewrite IH;
  repeat match goal with
    | |- context [exec _ _ _ ?p ?w] =>
        destruct (exec getConnection_step query_step release_step p w)
          as [[[?|?] ?] ?]
    end;
  reflexivity.

Lemma exec_bind (A B : Type) (p : Prog A) (f : A -> Prog B) (w : World) :
  execute (bind p f) w =
  let '(o, tr, w1) := execute p w in
  match o with
  | Returned a =>
      let '(o2, tr2, w2) := execute (f a) w1 in (o2, (tr ++ tr2)%list, w2)
  | Thrown e => (Thrown e, tr, w1)
  end.
Proof.
  revert w; induction p as [a|e|p k IH|c sql args k IH|c k IH]; intro w.
  - simpl. destruct (execute (f a) w) as [[? ?] ?]. reflexivity.
  - reflexivity.
  - step_exec IH.
  - step_exec IH.
  - step_exec IH.
Qed.

Lemma exec_try_catch (A : Type) (p : Prog A) (h : Exn -> Prog A) (w : World) :
  execute (try_catch p h) w =
  let '(o, tr, w1) := execute p w in
  match o with
  | Returned a => (Returned a, tr, w1)
  | Thrown e =>
      let '(o2, tr2, w2) := execute (h e) w1 in (o2, (tr ++ tr2)%list, w2)
  end.
Proof.
  revert w; induction p as [a|e|p k IH|c sql args k IH|c k IH]; intro w.
  - reflexivity.
  - simpl. destruct (execute (h e) w) as [[? ?] ?]. reflexivity.
  - step_exec IH.
  - step_exec IH.
  - step_exec IH.
Qed.

Lemma exec_try_finally_release (A : Type) (p : Prog A) (this : Connection)
    (w : World) :
  execute (try_finally p (release this)) w =
  let '(o, tr, w1) := execute p w in
  (o, (tr ++ [EvRelease (conn this)])%list, release_step (conn this) w1).
Proof.
  revert w; induction p as [a|e|p k IH|c sql args k IH|c k IH]; intro w.
  - reflexivity.
  - reflexivity.
  - step_exec IH.
  - step_exec IH.
  - step_exec IH.
Qed.

(** A driver promise awaited on its own. *)
Lemma exec_conn_query (c : ConnId) (sql : string) (args : list Scalar)
    (w : World) :
  execute (conn_query c sql args) w =
  (match fst (query_step c sql args w) with
   | Fulfilled r => Returned r
   | Rejected e => Thrown e
   end,
   [EvQuery c sql args], snd (query_step c sql args w)).
Proof.
  unfold conn_query. simpl.
  destruct (query_step c sql args w) as [[r|e] w1]; reflexivity.
Qed.

(** [doInsert] and [doUpdate] make one call to [conn.query], whatever
    comes back. *)
Lemma exec_doInsert (this : Connection) (sql : string) (args : list Scalar)
    (w : World) :
  exists o,
    execute (doInsert this sql args) w
    = (o, [EvQuery (conn this) sql args],
       snd (query_step (conn this) sql args w)).
Proof.
  unfold doInsert. rewrite exec_bind, exec_conn_query.
  destruct (query_step (conn this) sql args w) as [[r|e] w1]; simpl.
  - destruct (get_property (getInfo r) "insertId"); simpl; eauto.
  - eauto.
Qed.

Lemma exec_doUpdate (this : Connection) (sql : string) (args : list Scalar)
    (w : World) :
  exists o,
    execute (doUpdate this sql args) w
    = (o, [EvQuery (conn this) sql args],
       snd (query_step (conn this) sql args w)).
Proof.
  unfold doUpdate. rewrite exec_bind, exec_conn_query.
  destruct (query_step (conn this) sql args w) as [[r|e] w1]; simpl.
  - destruct (get_property (getInfo r) "affectedRows"); simpl; eauto.
  - eauto.
Qed.

(** What [doTransaction] does once BEGIN has succeeded, by the way the
    unit of work ends and the transaction statement that follows is
    answered. *)
Lemma exec_doTransaction (this : Connection)
    (fn : Connection -> Sync (Prog Value)) (w w1 : World) (r0 : QueryResult) :
  query_step (conn this) "BEGIN" [] w = (Fulfilled r0, w1) ->
  execute (doTransaction this fn) w =
  let '(o, tr, w2) := execute (await (fn this)) w1 in
  match o with
  | Returned res =>
      let '(s, w3) := query_step (conn this) "COMMIT" [] w2 in
      match s with
      | Fulfilled _ =>
          (Returned res,
           (EvQuery (conn this) "BEGIN" [] :: tr
            ++ [EvQuery (conn this) "COMMIT" []])%list, w3)
      | Rejected err =>
          let '(s', w4) := query_step (conn this) "ROLLBACK" [] w3 in
          (match s' with
           | Fulfilled _ =>
               if instanceof_RollbackError err then Returned undefined
               else Thrown err
           | Rejected err' => Thrown err'
           end,
           (EvQuery (conn this) "BEGIN" [] :: tr
            ++ [EvQuery (conn this) "COMMIT" [];
                EvQuery (conn this) "ROLLBACK" []])%list, w4)
      end
  | Thrown err =>
      let '(s, w3) := query_step (conn this) "ROLLBACK" [] w2 in
      (match s with
       | Fulfilled _ =>
           if instanceof_RollbackError err then Returned undefined
           else Thrown err
       | Rejected err' => Thrown err'
       end,
       (EvQuery (conn this) "BEGIN" [] :: tr
        ++ [EvQuery (conn this) "ROLLBACK" []])%list, w3)
  end.
Proof.
  intro Hbegin.
  unfold doTransaction, doBegin, doCommit, doRollback.
  rewrite exec_bind, exec_conn_query, Hbegin. cbn [fst snd].
  rewrite exec_try_catch, exec_bind.
  destruct (execute (await (fn this)) w1) as [[[res|err] tr] w2].
  - rewrite exec_bind, exec_conn_query.
    destruct (query_step (conn this) "COMMIT" [] w2) as [[r1|err] w3];
      cbn [fst snd].
    + simpl. reflexivity.
    + rewrite exec_bind, exec_conn_query.
      destruct (query_step (conn this) "ROLLBACK" [] w3) as [[r2|err'] w4];
        cbn [fst snd].
      * destruct (instanceof_RollbackError err); simpl;
          rewrite <- ?app_assoc; reflexivity.
      * simpl. rewrite <- ?app_assoc. reflexivity.
  - rewrite exec_bind, exec_conn_query.
    destruct (query_step (conn this) "ROLLBACK" [] w2) as [[r2|err'] w3];
      cbn [fst snd].
    + destruct (instanceof_RollbackError err); simpl; reflexivity.
    + reflexivity.
Qed.

(** ** Transactions *)

(** Counting a statement in a trace of the form
    [BEGIN :: tr ++ [last]]. *)
Ltac count_framed :=
  match goal with
  | |- context [(?first :: ?tr ++ [?last])%list] =>
      change (first :: tr ++ [last])%list
        with ([first] ++ tr ++ [last])%list;
      rewrite !count_statement_app; cbn; lia
  end.

(** The branch of the catch block written for the sentinel: were an
    instance of the module's own [RollbackError] class to reach it,
    [doTransaction] would send one ROLLBACK after the unit of work's calls
    and, that ROLLBACK succeeding, resolve with [undefined].  The module
    never constructs the class and exports [createDbc] alone, so no unit of
    work a caller writes gets there. *)
Lemma doTransaction_sentinel_rolls_back :
  forall (this : Connection) (fn : Connection -> Sync (Prog Value))
         (w w1 w2 w3 : World) (r0 : QueryResult) (message : string)
         (tr : list Event) (s : Settled QueryResult),
    query_step (conn this) "BEGIN" [] w = (Fulfilled r0, w1) ->
    execute (await (fn this)) w1 = (Thrown (RollbackError message), tr, w2) ->
    query_step (conn this) "ROLLBACK" [] w2 = (s, w3) ->
    let trace :=
      (EvQuery (conn this) "BEGIN" [] :: tr
       ++ [EvQuery (conn this) "ROLLBACK" []])%list in
    execute (doTransaction this fn) w
    = (match s with
       | Fulfilled _ => Returned undefined
       | Rejected err => Thrown err
       end, trace, w3)
    /\ count_statement "ROLLBACK" trace = S (count_statement "ROLLBACK" tr)
    /\ count_statement "COMMIT" trace = count_statement "COMMIT" tr.
Proof.
  intros this fn w w1 w2 w3 r0 message tr s Hbegin Hwork Hrollback trace.
  split; [|split].
  - rewrite (exec_doTransaction this fn Hbegin), Hwork, Hrollback.
    destruct s; reflexivity.
  - unfold trace. count_framed.
  - unfold trace. count_framed.
Qed.


(** C2, amended.  When BEGIN has succeeded and the unit of work raises an
    error that is not a [RollbackError], [doTransaction] sends one ROLLBACK
    after the unit of work's own calls, before it decides what to do with
    the error, and nothing else.  If that ROLLBACK succeeds, the original
    error is re-raised unchanged; if the driver rejects the ROLLBACK, the
    call is rejected with the driver's error in place of the original. *)
Theorem doTransaction_failure_rolls_back :
  forall (this : Connection) (fn : Connection -> Sync (Prog Value))
         (w w1 w2 w3 : World) (r0 : QueryResult) (err : Exn)
         (tr : list Event) (s : Settled QueryResult),
    query_step (conn this) "BEGIN" [] w = (Fulfilled r0, w1) ->
    execute (await (fn this)) w1 = (Thrown err, tr, w2) ->
    instanceof_RollbackError err = false ->
    query_step (conn this) "ROLLBACK" [] w2 = (s, w3) ->
    let trace :=
      (EvQuery (conn this) "BEGIN" [] :: tr
       ++ [EvQuery (conn this) "ROLLBACK" []])%list in
    execute (doTransaction this fn) w
    = (match s with
       | Fulfilled _ => Thrown err
       | Rejected err' => Thrown err'
       end, trace, w3)
    /\ count_statement "ROLLBACK" trace = S (count_statement "ROLLBACK" tr)
    /\ count_statement "COMMIT" trace = count_statement "COMMIT" tr.
Proof.
  intros this fn w w1 w2 w3 r0 err tr s Hbegin Hwork Hkind Hrollback trace.
  split; [|split].
  - rewrite (exec_doTransaction this fn Hbegin), Hwork, Hrollback, Hkind.
    destruct s; reflexivity.
  - unfold trace. count_framed.
  - unfold trace. count_framed.
Qed.

(** C3, amended.  When BEGIN has succeeded, the unit of work completes
    without raising, and the COMMIT statement itself succeeds,
    [doTransaction] sends one COMMIT after the unit of work's own calls
    and nothing else (COMMIT exactly once and no ROLLBACK, beyond what the
    unit of work sent itself), and returns the unit of work's result. *)
Theorem doTransaction_success_commits :
  forall (this : Connection) (fn : Connection -> Sync (Prog Value))
         (w w1 w2 w3 : World) (r0 r1 : QueryResult) (res : Value)
         (tr : list Event),
    query_step (conn this) "BEGIN" [] w = (Fulfilled r0, w1) ->
    execute (await (fn this)) w1 = (Returned res, tr, w2) ->
    query_step (conn this) "COMMIT" [] w2 = (Fulfilled r1, w3) ->
    let trace :=
      (EvQuery (conn this) "BEGIN" [] :: tr
       ++ [EvQuery (conn this) "COMMIT" []])%list in
    execute (doTransaction this fn) w = (Returned res, trace, w3)
    /\ count_statement "COMMIT" trace = S (count_statement "COMMIT" tr)
    /\ count_statement "ROLLBACK" trace = count_statement "ROLLBACK" tr.
Proof.
  intros this fn w w1 w2 w3 r0 r1 res tr Hbegin Hwork Hcommit trace.
  split; [|split].
  - now rewrite (exec_doTransaction this fn Hbegin), Hwork, Hcommit.
  - unfold trace. count_framed.
  - unfold trace. count_framed.
Qed.

(** ** Scoped connections *)

(** C8.  Once the pool has handed out connection [c], a call of a
    function wrapped by [withConnection] performs, after the wrapped
    function's own calls [tr], exactly one [release] of [c] and nothing
    more, and passes the function's completion [o] through: this holds
    when the function's promise resolves, when it is rejected, and when the
    function throws synchronously while being invoked ([await] of a
    synchronous throw).  The wrapper's release is the last event, so the
    connection is released once more than the function released it
    itself: exactly once for a function that leaves releasing to the
    wrapper. *)
Theorem withConnection_releases_once :
  forall (pooler : Pooler) (p : Pool)
         (fn : Connection -> list Value -> Sync (Prog Value))
         (arguments : list Value) (w w1 w2 : World) (c : ConnId)
         (o : Outcome Value) (tr : list Event),
    getPool pooler = inr p ->
    getConnection_step p w = (Fulfilled c, w1) ->
    execute (await (fn {| conn := c |} arguments)) w1 = (o, tr, w2) ->
    let trace := (EvGetConnection p :: tr ++ [EvRelease c])%list in
    execute (withConnection pooler fn arguments) w
    = (o, trace, release_step c w2)
    /\ count_release c trace = S (count_release c tr)
    /\ (count_release c tr = 0 -> count_release c trace = 1).
Proof.
  intros pooler p fn arguments w w1 w2 c o tr Hpool Hget Hfn trace.
  assert (Hcount : count_release c trace = S (count_release c tr)).
  { unfold trace.
    change (EvGetConnection p :: tr ++ [EvRelease c])%list
      with ([EvGetConnection p] ++ tr ++ [EvRelease c])%list.
    rewrite !count_release_app. cbn. rewrite Nat.eqb_refl. cbn. lia. }
  split; [|split; [exact Hcount | lia]].
  unfold withConnection, Connection_run, Connection_new.
  rewrite Hpool. cbn [bind exec]. rewrite Hget. cbn [settle bind].
  rewrite exec_try_finally_release, Hfn. reflexivity.
Qed.

(** ** Validation *)

Lemma inl_throws_synchronously (A : Type) (call : Sync (Prog A)) (e : Exn) :
  call = inl e -> throws_sync call e.
Proof. intros ->. split; reflexivity. Qed.

(** C4.  [updateOne] and [updateOneByFields] raise [NoFieldsToUpdate] when
    the field list is empty; when the values and the fields differ in
    number (and, for [updateOneByFields], when the where-values and the
    where-fields do) they raise an error too, which is an
    [ArgumentCountMismatch] unless the field list is empty, the check that
    comes first.  Each of these errors is thrown synchronously, and no
    call to the driver is made. *)
Theorem update_validation_throws_synchronously :
  forall (this : Connection) (table : string) (id : Scalar)
         (fields : list string) (values : list Scalar)
         (whereFields : list string) (whereValues : list Scalar),
    (fields = [] ->
       throws_sync (updateOne this table id fields values)
         NoFieldsToUpdate
       /\ throws_sync
            (updateOneByFields this table fields values
               whereFields whereValues)
            NoFieldsToUpdate)
    /\ (length values <> length fields ->
        exists e,
          validation_error_for fields e
          /\ throws_sync (updateOne this table id fields values) e
          /\ throws_sync
               (updateOneByFields this table fields values
                  whereFields whereValues) e)
    /\ (length whereValues <> length whereFields ->
        exists e,
          validation_error_for fields e
          /\ throws_sync
               (updateOneByFields this table fields values
                  whereFields whereValues) e).
Proof.
  intros this table id fields values whereFields whereValues.
  unfold validation_error_for, updateOne, updateOneByFields.
  split; [|split].
  - intros ->. split; apply inl_throws_synchronously; reflexivity.
  - intro Hlen. destruct (Nat.eqb (length fields) 0).
    + exists NoFieldsToUpdate.
      repeat split; reflexivity.
    + apply Nat.eqb_neq in Hlen. rewrite Hlen. cbn [negb].
      eexists. split; [|split; apply inl_throws_synchronously; reflexivity].
      reflexivity.
  - intro Hlen. destruct (Nat.eqb (length fields) 0).
    + exists NoFieldsToUpdate. repeat split; reflexivity.
    + destruct (Nat.eqb (length values) (length fields)); cbn [negb].
      * assert (Hw : Nat.eqb (length whereFields) (length whereValues) = false)
          by (apply Nat.eqb_neq; congruence).
        rewrite Hw. cbn [negb].
        eexists. split; [|apply inl_throws_synchronously; reflexivity].
        reflexivity.
      * eexists. split; [|apply inl_throws_synchronously; reflexivity].
        reflexivity.
Qed.

(** C10.  A record all of whose keys are among [id], [ctime] and [mtime]
    leaves [updateOneObject] with no field to write: it throws the
    [NoFieldsToUpdate] error synchronously and makes no call to the
    driver, also when the record is not empty. *)
Theorem updateOneObject_only_metadata :
  forall (this : Connection) (table : string) (info : Record),
    forallb is_metadata_key (ownKeys info) = true ->
    throws_sync (updateOneObject this table info) NoFieldsToUpdate.
Proof.
  intros this table info Hall.
  apply inl_throws_synchronously.
  unfold updateOneObject. rewrite updateOneObject_loop.
  assert (Hnone : set_keys info = []).
  { unfold set_keys. rewrite forallb_forall in Hall.
    induction (ownKeys info) as [|key keys IH]; [reflexivity|].
    simpl. rewrite (Hall key (or_introl eq_refl)). simpl.
    apply IH. intros k Hk. apply Hall. now right. }
  rewrite Hnone. reflexivity.
Qed.

(** C9.  [insertManyObjects] on an empty list of records reads the keys of
    [objects[0]], which is [undefined]: [Reflect.ownKeys] throws, so the
    call throws synchronously, before any statement is built and with no
    call to the driver. *)
Theorem insertManyObjects_empty_throws :
  forall (max_arguments : positive) (this : Connection) (table : string),
    throws_sync (insertManyObjects max_arguments this table [])
      (TypeError "Reflect.ownKeys called on non-object").
Proof.
  intros max_arguments this table. apply inl_throws_synchronously.
  reflexivity.
Qed.

(** ** Generated statements *)

(** C5, as the code behaves.  [insertMany] flattens the rows with
    [[].concat.apply([], list)].  While the rows are no more than the
    arguments the engine lets [apply] pass, the call makes exactly one call
    to the driver, with the statement
    [INSERT INTO T (f1, ..., fk) VALUES (?, ..., ?), ..., (?, ..., ?)] of
    [n] tuples and the rows' values in order as arguments.  With more rows
    than that, the call throws a [RangeError] synchronously and sends no
    statement at all. *)
Theorem insertMany_argument_limit :
  forall (max_arguments : positive) (this : Connection) (table : string)
         (fields : list string) (rows : list (list Scalar)),
    ((length rows <= Pos.to_nat max_arguments)%nat ->
     insertMany max_arguments this table fields rows
     = inr (doInsert this
              (insert_many_shape table fields (length rows)) (concat rows))
     /\ forall w, exists o,
          execute (await (insertMany max_arguments this table fields rows)) w
          = (o,
             [EvQuery (conn this)
                (insert_many_shape table fields (length rows)) (concat rows)],
             snd (query_step (conn this)
                    (insert_many_shape table fields (length rows))
                    (concat rows) w)))
    /\ ((Pos.to_nat max_arguments < length rows)%nat ->
        throws_sync (insertMany max_arguments this table fields rows)
          (RangeError "Maximum call stack size exceeded")).
Proof.
  intros max_arguments this table fields rows.
  unfold insertMany. rewrite insertMany_text. unfold flatten. split.
  - intro Hfew. apply Nat.leb_le in Hfew. rewrite Hfew.
    split; [reflexivity|]. intro w. apply exec_doInsert.
  - intro Hmany. apply Nat.leb_gt in Hmany. rewrite Hmany.
    apply inl_throws_synchronously. reflexivity.
Qed.

(** C6.  For every record that has a key other than [id], [ctime] and
    [mtime], [updateOneObject] makes one call to the driver with the
    statement [UPDATE T SET k1 = ?, ... WHERE id = ?], where [k1, ...] are
    the record's keys in the record's own order with [id], [ctime] and
    [mtime] left out; the arguments are the values of those keys in that
    order, followed by the record's [id] as the last argument. *)
Theorem updateOneObject_statement :
  forall (this : Connection) (table : string) (info : Record) (w : World),
    existsb (fun key => negb (is_metadata_key key)) (ownKeys info) = true ->
    let sql := update_by_id_shape table (set_keys info) in
    let args := (map (get info) (set_keys info) ++ [get info "id"])%list in
    updateOneObject this table info = inr (doUpdate this sql args)
    /\ (exists o,
          execute (await (updateOneObject this table info)) w
          = (o, [EvQuery (conn this) sql args],
             snd (query_step (conn this) sql args w)))
    /\ (forall key,
          In key (set_keys info) <->
          In key (ownKeys info)
          /\ key <> "id" /\ key <> "ctime" /\ key <> "mtime").
Proof.
  intros this table info w Hsome sql args.
  assert (Hcall : updateOneObject this table info
                  = inr (doUpdate this sql args)).
  { unfold updateOneObject. rewrite updateOneObject_loop.
    unfold updateOne. rewrite length_map.
    assert (Hlen : Nat.eqb (length (set_keys info)) 0 = false).
    { apply Nat.eqb_neq. intro Hzero.
      apply length_zero_iff_nil in Hzero.
      apply existsb_exists in Hsome as (key & Hin & Hkey).
      assert (Hset : In key (set_keys info))
        by (unfold set_keys; apply filter_In; auto).
      rewrite Hzero in Hset. exact Hset. }
    rewrite Hlen, Nat.eqb_refl. reflexivity. }
  split; [exact Hcall | split].
  - rewrite Hcall. apply exec_doUpdate.
  - intro key. apply set_keys_spec.
Qed.

(** C7, amended.  For every table, non-empty list of fields with as many
    values, and list of where-fields with as many where-values,
    [updateOneByFields] makes one call to the driver with the statement
    [update T set f1 = ?, ... where w1 = ? AND ...] (the keywords
    [update], [set] and [where] in lower case, [AND] in upper case) and
    the arguments are the set-values followed by the where-values, in
    order. *)
Theorem updateOneByFields_statement :
  forall (this : Connection) (table : string)
         (fields : list string) (values : list Scalar)
         (whereFields : list string) (whereValues : list Scalar) (w : World),
    fields <> [] ->
    length values = length fields ->
    length whereValues = length whereFields ->
    let sql := update_by_fields_text table fields whereFields in
    let args := (values ++ whereValues)%list in
    updateOneByFields this table fields values whereFields whereValues
    = inr (doUpdate this sql args)
    /\ exists o,
         execute
           (await (updateOneByFields this table fields values
                     whereFields whereValues)) w
         = (o, [EvQuery (conn this) sql args],
            snd (query_step (conn this) sql args w)).
Proof.
  intros this table fields values whereFields whereValues w
         Hfields Hvalues Hwhere sql args.
  assert (Hcall :
            updateOneByFields this table fields values whereFields whereValues
            = inr (doUpdate this sql args)).
  { unfold updateOneByFields.
    destruct fields as [|f fields]; [contradiction|].
    rewrite Hvalues, Hwhere, !Nat.eqb_refl. reflexivity. }
  split; [exact Hcall|].
  rewrite Hcall. apply exec_doUpdate.
Qed.

End Driver.

(** * The theorems at work on the example driver *)


(** Three rows on an engine that passes two arguments, and on one that
    passes three. *)
Lemma insertMany_argument_limit_witness :
  mock_exec []
    (await (insertMany 2 sample_connection "t" ["a"]
              [[SNum 1]; [SNum 2]; [SNum 3]])) 0
  = (Thrown (RangeError "Maximum call stack size exceeded"), [], 0)
  /\ exists o,
       mock_exec []
         (await (insertMany 3 sample_connection "t" ["a"]
                   [[SNum 1]; [SNum 2]; [SNum 3]])) 0
       = (o,
          [EvQuery 7 "INSERT INTO t (a) VALUES (?), (?), (?)"
             [SNum 1; SNum 2; SNum 3]], 1).
Proof.
  split.
  - destruct (@insertMany_argument_limit
                nat mock_getConnection (mock_query []) mock_release
                2%positive sample_connection "t" ["a"]
                [[SNum 1]; [SNum 2]; [SNum 3]]) as (_ & Hmany).
    destruct Hmany as (_ & Hrun); [simpl; lia|]. exact (Hrun 0).
  - destruct (@insertMany_argument_limit
                nat mock_getConnection (mock_query []) mock_release
                3%positive sample_connection "t" ["a"]
                [[SNum 1]; [SNum 2]; [SNum 3]]) as (Hfew & _).
    destruct Hfew as (_ & Hrun); [simpl; lia|]. exact (Hrun 0).
Defined.

(** A failed transaction against a driver that accepts everything. *)
Lemma doTransaction_failure_rolls_back_witness :
  mock_exec [] (doTransaction sample_connection failing_work) 0
  = (Thrown (Error "boom"),
     [EvQuery 7 "BEGIN" [];
      EvQuery 7 "INSERT INTO t (a) VALUES (?)" [SNum 1];
      EvQuery 7 "ROLLBACK" []], 3).
Proof.
  apply (@doTransaction_failure_rolls_back
           nat mock_getConnection (mock_query []) mock_release
           sample_connection failing_work 0 1 2 3 ok_result (Error "boom")
           [EvQuery 7 "INSERT INTO t (a) VALUES (?)" [SNum 1]]
           (Fulfilled ok_result));
    reflexivity.
Defined.

(** The unit of work fails with [Error "boom"], the driver rejects the
    ROLLBACK: the caller receives the driver's error, not the original. *)
Lemma doTransaction_failure_rollback_rejected :
  fst (fst (mock_exec ["ROLLBACK"] (await (failing_work sample_connection)) 1))
  = Thrown (Error "boom")
  /\ mock_exec ["ROLLBACK"] (doTransaction sample_connection failing_work) 0
     = (Thrown (DriverError "ECONNRESET"),
        [EvQuery 7 "BEGIN" [];
         EvQuery 7 "INSERT INTO t (a) VALUES (?)" [SNum 1];
         EvQuery 7 "ROLLBACK" []], 3)
  /\ fst (fst (mock_exec ["ROLLBACK"]
                 (doTransaction sample_connection failing_work) 0))
     <> Thrown (Error "boom").
Proof. repeat split; try reflexivity. discriminate. Qed.

(** A successful transaction against a driver that accepts everything. *)
Lemma doTransaction_success_commits_witness :
  mock_exec [] (doTransaction sample_connection good_work) 0
  = (Returned (VScalar (SNum 1)),
     [EvQuery 7 "BEGIN" [];
      EvQuery 7 "INSERT INTO t (a) VALUES (?)" [SNum 1];
      EvQuery 7 "COMMIT" []], 3).
Proof.
  apply (@doTransaction_success_commits
           nat mock_getConnection (mock_query []) mock_release
           sample_connection good_work 0 1 2 3 ok_result ok_result
           (VScalar (SNum 1))
           [EvQuery 7 "INSERT INTO t (a) VALUES (?)" [SNum 1]]);
    reflexivity.
Defined.

(** The unit of work completes without raising, the driver rejects the
    COMMIT: a ROLLBACK is sent and the result is not returned. *)
Lemma doTransaction_commit_rejected :
  mock_exec ["COMMIT"] (await (good_work sample_connection)) 1
  = (Returned (VScalar (SNum 1)),
     [EvQuery 7 "INSERT INTO t (a) VALUES (?)" [SNum 1]], 2)
  /\ mock_exec ["COMMIT"] (doTransaction sample_connection good_work) 0
     = (Thrown (DriverError "ECONNRESET"),
        [EvQuery 7 "BEGIN" [];
         EvQuery 7 "INSERT INTO t (a) VALUES (?)" [SNum 1];
         EvQuery 7 "COMMIT" [];
         EvQuery 7 "ROLLBACK" []], 4)
  /\ count_statement "ROLLBACK"
       (snd (fst (mock_exec ["COMMIT"]
                    (doTransaction sample_connection good_work) 0))) = 1.
Proof. repeat split; reflexivity. Qed.

(** A wrapped function that throws while being invoked: the connection is
    released all the same, once. *)
Lemma withConnection_releases_once_witness :
  mock_exec []
    (withConnection {| pool := Some 1 |} throwing_function []) 0
  = (Thrown (Error "bad argument"), [EvGetConnection 1; EvRelease 7], 0)
  /\ count_release 7 [EvGetConnection 1; EvRelease 7] = 1.
Proof.
  destruct (@withConnection_releases_once
              nat mock_getConnection (mock_query []) mock_release
              {| pool := Some 1 |} 1 throwing_function [] 0 0 0 7
              (Thrown (Error "bad argument")) []
              eq_refl eq_refl eq_refl) as (Hrun & _ & Honce).
  split; [exact Hrun | exact (Honce eq_refl)].
Defined.

(** [updateOne(table, id, ['a','b'], [1])] *)
Lemma update_validation_throws_synchronously_witness :
  exists e,
    is_ArgumentCountMismatch e = true
    /\ updateOne sample_connection "t" (SNum 5) ["a"; "b"] [SNum 1] = inl e.
Proof.
  destruct (@update_validation_throws_synchronously
              nat mock_getConnection (mock_query []) mock_release
              sample_connection "t" (SNum 5) ["a"; "b"] [SNum 1] [] [])
    as (_ & Hmismatch & _).
  destruct Hmismatch as (e & Hkind & (Hthrow & _) & _);
    [simpl; lia|].
  exists e. split; [exact Hkind | exact Hthrow].
Defined.

(** [updateOneObject('t', {id: 5, ctime: X, mtime: Y, name: 'n'})] *)
Lemma updateOneObject_statement_witness :
  exists o,
    mock_exec [] (await (updateOneObject sample_connection "t" sample_record)) 0
    = (o, [EvQuery 7 "UPDATE t SET name = ? WHERE id = ?" [SStr "n"; SNum 5]], 1).
Proof.
  destruct (@updateOneObject_statement
              nat mock_getConnection (mock_query []) mock_release
              sample_connection "t" sample_record 0 eq_refl)
    as (_ & Hrun & _).
  exact Hrun.
Defined.

(** [updateOneByFields('t', ['a','b'], [1,2], ['c','d'], [3,4])] *)
Lemma updateOneByFields_statement_witness :
  exists o,
    mock_exec []
      (await (updateOneByFields sample_connection "t"
                ["a"; "b"] [SNum 1; SNum 2] ["c"; "d"] [SNum 3; SNum 4])) 0
    = (o,
       [EvQuery 7 "update t set a = ?, b = ? where c = ? AND d = ?"
          [SNum 1; SNum 2; SNum 3; SNum 4]], 1).
Proof.
  refine (proj2 (@updateOneByFields_statement
                   nat mock_getConnection (mock_query []) mock_release
                   sample_connection "t"
                   ["a"; "b"] [SNum 1; SNum 2] ["c"; "d"] [SNum 3; SNum 4] 0
                   _ eq_refl eq_refl)).
  discriminate.
Defined.

(** The statement [updateOneByFields] sends is not the text of the table of
    shapes: its keywords are in lower case. *)
Lemma updateOneByFields_keywords_lower_case :
  mock_exec []
    (await (updateOneByFields sample_connection "t"
              ["a"] [SNum 1] ["b"] [SNum 2])) 0
  = (Returned (VScalar (SNum 1)),
     [EvQuery 7 "update t set a = ? where b = ?" [SNum 1; SNum 2]], 1)
  /\ update_by_fields_shape "t" ["a"] ["b"] = "UPDATE t SET a = ? WHERE b = ?"
  /\ "update t set a = ? where b = ?" <> update_by_fields_shape "t" ["a"] ["b"].
Proof. repeat split; try reflexivity. discriminate. Qed.

(** [updateOneObject('t', {id: 5, ctime: X, mtime: Y})] *)
Lemma updateOneObject_only_metadata_witness :
  updateOneObject sample_connection "t" metadata_record = inl NoFieldsToUpdate
  /\ mock_exec [] (await (updateOneObject sample_connection "t" metadata_record)) 0
     = (Thrown NoFieldsToUpdate, [], 0).
Proof.
  destruct (@updateOneObject_only_metadata
              nat mock_getConnection (mock_query []) mock_release
              sample_connection "t" metadata_record eq_refl)
    as (Hthrow & Hrun).
  split; [exact Hthrow | exact (Hrun 0)].
Defined.

(** * The rest of the module *)

(** ** Records *)

Lemma get_absent (info : Record) (key : string) :
  existsb (String.eqb key) (ownKeys info) = false -> get info key = SUndefined.
Proof.
  induction info as [|[k v] info IH]; simpl; [reflexivity|].
  rewrite orb_false_iff. intros [Hk Hrest].
  rewrite String.eqb_sym, Hk. now apply IH.
Qed.

(** Reading every key of a record with distinct keys gives back its
    values, one after the other. *)
Lemma map_get_ownKeys (info : Record) :
  distinct (ownKeys info) = true ->
  map (fun key => get info key) (ownKeys info) = map snd info.
Proof.
  induction info as [|[k v] info IH]; simpl; [reflexivity|].
  rewrite andb_true_iff, negb_true_iff. intros [Hfresh Hrest].
  rewrite String.eqb_refl. f_equal.
  rewrite <- (IH Hrest). apply map_ext_in. intros key Hin.
  destruct (String.eqb_spec k key) as [->|_]; [|reflexivity].
  assert (Hfound : existsb (String.eqb key) (ownKeys info) = true)
    by (apply existsb_exists; exists key; split;
        [exact Hin | apply String.eqb_refl]).
  congruence.
Qed.

Lemma get_set (target : Record) (key : string) (value : Scalar)
    (key' : string) :
  get (set target key value) key'
  = if String.eqb key key' then value else get target key'.
Proof.
  induction target as [|[k v] target IH]; simpl.
  - reflexivity.
  - destruct (String.eqb_spec k key) as [->|Hk]; simpl.
    + destruct (String.eqb key key'); reflexivity.
    + rewrite IH.
      destruct (String.eqb_spec k key') as [->|_]; [|reflexivity].
      destruct (String.eqb_spec key key') as [->|_]; [contradiction|reflexivity].
Qed.

Lemma get_assign_keys (source : Record) (keys : list string)
    (target : Record) (key : string) :
  get (fold_left (fun target key => set target key (get source key))
         keys target) key
  = if existsb (String.eqb key) keys then get source key else get target key.
Proof.
  revert target; induction keys as [|k keys IH]; intro target; simpl.
  - reflexivity.
  - rewrite IH, get_set.
    destruct (existsb (String.eqb key) keys); [now rewrite orb_true_r|].
    rewrite orb_false_r, String.eqb_sym.
    destruct (String.eqb_spec key k) as [->|_]; reflexivity.
Qed.

(** ** Placeholders *)

Lemma count_placeholders_append (a b : string) :
  count_placeholders (a ++ b) = (count_placeholders a + count_placeholders b)%nat.
Proof.
  induction a as [|ch a IH]; simpl; [reflexivity | rewrite IH; lia].
Qed.

Lemma count_placeholders_plain (name : string) :
  plain name = true -> count_placeholders name = 0.
Proof. unfold plain. apply Nat.eqb_eq. Qed.

Lemma count_placeholders_fields (fields : list string) :
  forallb plain fields = true -> count_placeholders (join ", " fields) = 0.
Proof.
  induction fields as [|f [|g fields] IH]; simpl forallb.
  - reflexivity.
  - rewrite andb_true_r. apply count_placeholders_plain.
  - rewrite andb_true_iff. intros [Hf Hrest].
    rewrite join_cons_cons, !count_placeholders_append.
    rewrite (count_placeholders_plain _ Hf), (IH Hrest). reflexivity.
Qed.

Lemma count_placeholders_assignments (sep : string) (fields : list string) :
  count_placeholders sep = 0 ->
  forallb plain fields = true ->
  count_placeholders (assignments sep fields) = length fields.
Proof.
  intro Hsep. unfold assignments.
  induction fields as [|f [|g fields] IH]; simpl forallb.
  - reflexivity.
  - rewrite andb_true_r. intro Hf. simpl map. simpl join.
    rewrite count_placeholders_append, (count_placeholders_plain _ Hf).
    reflexivity.
  - rewrite andb_true_iff. intros [Hf Hrest].
    change (map (fun f0 => f0 ++ " = ?") (f :: g :: fields))
      with ((f ++ " = ?") :: (g ++ " = ?")
            :: map (fun f0 => f0 ++ " = ?") fields).
    rewrite join_cons_cons, !count_placeholders_append.
    change ((g ++ " = ?") :: map (fun f0 => f0 ++ " = ?") fields)
      with (map (fun f0 => f0 ++ " = ?") (g :: fields)).
    rewrite (IH Hrest), (count_placeholders_plain _ Hf), Hsep.
    simpl. lia.
Qed.

Lemma count_placeholders_repeat (s : string) (n : nat) :
  count_placeholders (join ", " (repeat s n)) = (n * count_placeholders s)%nat.
Proof.
  induction n as [|[|n] IH].
  - reflexivity.
  - simpl. lia.
  - change (repeat s (S (S n))) with (s :: s :: repeat s n).
    rewrite join_cons_cons, !count_placeholders_append.
    change (s :: repeat s n) with (repeat s (S n)).
    rewrite IH. simpl. lia.
Qed.

Lemma count_placeholders_value_tuple (k : nat) :
  count_placeholders (value_tuple k) = k.
Proof.
  unfold value_tuple.
  rewrite !count_placeholders_append, count_placeholders_repeat. simpl. lia.
Qed.

Lemma count_placeholders_insert_many (table : string) (fields : list string)
    (n : nat) :
  plain table = true ->
  forallb plain fields = true ->
  count_placeholders (insert_many_shape table fields n)
  = (n * length fields)%nat.
Proof.
  intros Htable Hfields. unfold insert_many_shape.
  rewrite !count_placeholders_append, count_placeholders_repeat,
    count_placeholders_value_tuple, (count_placeholders_plain _ Htable),
    (count_placeholders_fields _ Hfields).
  simpl. lia.
Qed.

Lemma length_concat_rows (A : Type) (k : nat) (rows : list (list A)) :
  forallb (fun row => Nat.eqb (length row) k) rows = true ->
  length (concat rows) = (length rows * k)%nat.
Proof.
  induction rows as [|row rows IH]; simpl; [reflexivity|].
  rewrite andb_true_iff, Nat.eqb_eq. intros [Hrow Hrest].
  rewrite length_app, (IH Hrest), Hrow. reflexivity.
Qed.

Lemma map_placeholder_repeat (fields : list string) :
  map (fun _ : string => "?") fields = repeat "?" (length fields).
Proof.
  induction fields as [|f fields IH]; simpl; [reflexivity | now rewrite IH].
Qed.

(** The statement of [insertOne] is the many-row statement with one
    tuple. *)
Lemma insertOne_text (table : string) (fields : list string) :
  "INSERT INTO " ++ table ++ " (" ++ join ", " fields ++ ") VALUES ("
  ++ join ", " (map (fun _ : string => "?") fields) ++ ")"
  = insert_many_shape table fields 1.
Proof.
  unfold insert_many_shape, value_tuple. rewrite map_placeholder_repeat.
  simpl. reflexivity.
Qed.

(** ** Programs the builders return *)

Lemma insertMany_cases (max_arguments : positive) (this : Connection)
    (table : string) (fields : list string) (rows : list (list Scalar)) :
  insertMany max_arguments this table fields rows
  = if (length rows <=? Pos.to_nat max_arguments)%nat
    then inr (doInsert this (insert_many_shape table fields (length rows))
                (concat rows))
    else inl (RangeError "Maximum call stack size exceeded").
Proof.
  unfold insertMany. rewrite insertMany_text. unfold flatten.
  destruct (length rows <=? Pos.to_nat max_arguments)%nat; reflexivity.
Qed.

(** One argument is never too many. *)
Lemma one_row_within_limit (max_arguments : positive) :
  (1 <=? Pos.to_nat max_arguments)%nat = true.
Proof. apply Nat.leb_le. pose proof (Pos2Nat.is_pos max_arguments). lia. Qed.

(** On the record's own keys, [read] is [get]. *)
Lemma map_read_ownKeys (info : Record) :
  map (fun key => read info key) (ownKeys info)
  = map (fun key => get info key) (ownKeys info).
Proof.
  apply map_ext_in. intros key Hin. unfold read.
  assert (Hown : existsb (String.eqb key) (ownKeys info) = true)
    by (apply existsb_exists; exists key; split;
        [exact Hin | apply String.eqb_refl]).
  now rewrite Hown.
Qed.

Lemma insertOne_program (this : Connection) (table : string)
    (fields : list string) (values : list Scalar) :
  insertOne this table fields values
  = doInsert this (insert_many_shape table fields 1) values.
Proof. unfold insertOne. now rewrite insertOne_text. Qed.

Lemma updateOneObject_program (this : Connection) (table : string)
    (info : Record) :
  existsb (fun key => negb (is_metadata_key key)) (ownKeys info) = true ->
  updateOneObject this table info
  = inr (doUpdate this (update_by_id_shape table (set_keys info))
           (map (get info) (set_keys info) ++ [get info "id"])%list).
Proof.
  intro Hsome.
  unfold updateOneObject. rewrite updateOneObject_loop.
  unfold updateOne. rewrite length_map.
  destruct (set_keys info) as [|key keys] eqn:Hkeys.
  - apply existsb_exists in Hsome as (key & Hin & Hkey).
    assert (Hset : In key (set_keys info))
      by (unfold set_keys; apply filter_In; auto).
    rewrite Hkeys in Hset. contradiction.
  - simpl length. rewrite Nat.eqb_refl. reflexivity.
Qed.

Lemma insertManyObjects_cases (max_arguments : positive) (this : Connection)
    (table : string) (first : Record) (rest : list Record) :
  insertManyObjects max_arguments this table (first :: rest)
  = if (S (length rest) <=? Pos.to_nat max_arguments)%nat
    then inr (doInsert this
                (insert_many_shape table (ownKeys first) (S (length rest)))
                (concat
                   (map (fun obj =>
                           map (fun key => read obj key) (ownKeys first))
                      (first :: rest))))
    else inl (RangeError "Maximum call stack size exceeded").
Proof.
  unfold insertManyObjects. simpl Reflect_ownKeys. cbv iota beta zeta.
  rewrite insertMany_cases, length_map. reflexivity.
Qed.

(** X1.  Selecting by a list of one field is selecting by that field: the
    one-row and the many-row variants each send the same statement with the
    same argument either way. *)
Theorem select_by_one_field_agrees :
  forall (this : Connection) (table field : string) (value : Scalar),
    selectOneByFields this table [field] [value]
    = selectOneByField this table field value
    /\ selectManyByFields this table [field] [value]
       = selectManyByField this table field value.
Proof.
  intros this table field value.
  unfold selectOneByFields, selectOneByField, selectManyByFields,
    selectManyByField.
  simpl map. simpl join. split; [|reflexivity].
  now rewrite (append_assoc field " = ?" " LIMIT 1").
Qed.

(** X2.  For a record with distinct keys, the object variants are the
    field-list variants applied to the record's keys and values, in the
    record's order: the i-th argument is the value stored under the i-th
    field. *)
Theorem object_variants_align :
  forall (this : Connection) (table : string) (info : Record),
    distinct (ownKeys info) = true ->
    selectOneByObject this table info
    = selectOneByFields this table (map fst info) (map snd info)
    /\ insertOneObject this table info
       = insertOne this table (map fst info) (map snd info).
Proof.
  intros this table info Hdistinct.
  unfold selectOneByObject, insertOneObject.
  rewrite (map_get_ownKeys info Hdistinct). split; reflexivity.
Qed.

(** X3.  Inserting one row through [insertMany] is [insertOne]: the same
    statement and the same arguments. *)
Theorem insertMany_single_row_is_insertOne :
  forall (max_arguments : positive) (this : Connection) (table : string)
         (fields : list string) (values : list Scalar),
    insertMany max_arguments this table fields [values]
    = inr (insertOne this table fields values).
Proof.
  intros max_arguments this table fields values.
  rewrite insertMany_cases, insertOne_program. simpl length.
  rewrite one_row_within_limit. simpl concat. now rewrite app_nil_r.
Qed.

(** X4.  Inserting one record through [insertManyObjects] is
    [insertOneObject]. *)
Theorem insertManyObjects_single_is_insertOneObject :
  forall (max_arguments : positive) (this : Connection) (table : string)
         (info : Record),
    insertManyObjects max_arguments this table [info]
    = inr (insertOneObject this table info).
Proof.
  intros max_arguments this table info.
  rewrite insertManyObjects_cases. unfold insertOneObject.
  rewrite insertOne_program. simpl length. rewrite one_row_within_limit.
  simpl map. simpl concat. now rewrite app_nil_r, map_read_ownKeys.
Qed.

(** X5.  [insertManyObjects] on a non-empty list, of no more records than
    the engine lets the flattening pass, takes the fields from the first
    record alone.  It sends one tuple per record, and every record
    contributes one argument per field of the first record: the argument at
    position [i * k + j] is what reading field [j] on record [i] gives.  For
    a key the record lacks that is [undefined], unless [Object.prototype]
    has a property of that name: then it is the inherited value. *)
Theorem insertManyObjects_arguments :
  forall (max_arguments : positive) (this : Connection) (table : string)
         (first : Record) (rest : list Record),
    let objects := first :: rest in
    let keys := ownKeys first in
    (length objects <= Pos.to_nat max_arguments)%nat ->
    exists args,
      insertManyObjects max_arguments this table objects
      = inr (doInsert this
               (insert_many_shape table keys (length objects)) args)
      /\ length args = (length objects * length keys)%nat
      /\ (forall i j obj key,
            nth_error objects i = Some obj ->
            nth_error keys j = Some key ->
            nth_error args (i * length keys + j) = Some (read obj key))
      /\ (forall i j obj key,
            nth_error objects i = Some obj ->
            nth_error keys j = Some key ->
            existsb (String.eqb key) (ownKeys obj) = false ->
            nth_error args (i * length keys + j)
            = Some (if existsb (String.eqb key) Object_prototype_keys
                    then SInherited key else SUndefined)).
Proof.
  intros max_arguments this table first rest objects keys Hfew.
  set (rows := map (fun obj => map (fun key => read obj key) keys) objects).
  assert (Hwidth : Forall (fun row : list Scalar => length row = length keys) rows).
  { unfold rows. apply Forall_map, Forall_forall. intros obj _.
    apply length_map. }
  assert (Hpos : forall i j obj key,
            nth_error objects i = Some obj ->
            nth_error keys j = Some key ->
            nth_error (concat rows) (i * length keys + j) = Some (read obj key)).
  { intros i j obj key Hobj Hkey.
    rewrite (concat_rows_index Hwidth i
               (row := map (fun key => read obj key) keys)).
    - exact (map_nth_error (fun key => read obj key) j keys Hkey).
    - exact (map_nth_error
               (fun obj => map (fun key => read obj key) keys) i objects Hobj).
    - apply nth_error_Some. congruence. }
  exists (concat rows). split; [|split; [|split]].
  - unfold objects. rewrite insertManyObjects_cases.
    apply Nat.leb_le in Hfew. simpl length in Hfew. now rewrite Hfew.
  - rewrite (@length_concat_rows Scalar (length keys) rows).
    + unfold rows. now rewrite length_map.
    + apply forallb_forall. intros row Hrow. apply Nat.eqb_eq.
      rewrite Forall_forall in Hwidth. now apply Hwidth.
  - exact Hpos.
  - intros i j obj key Hobj Hkey Habsent.
    rewrite (Hpos i j obj key Hobj Hkey). unfold read. now rewrite Habsent.
Qed.

(** X6.  A record that has fields to write but no [id] does not make
    [updateOneObject] throw: it sends the UPDATE with [undefined] bound to
    the [id] of the WHERE clause. *)
Theorem updateOneObject_without_id :
  forall (this : Connection) (table : string) (info : Record),
    existsb (fun key => negb (is_metadata_key key)) (ownKeys info) = true ->
    existsb (String.eqb "id") (ownKeys info) = false ->
    updateOneObject this table info
    = inr (doUpdate this (update_by_id_shape table (set_keys info))
             (map (get info) (set_keys info) ++ [SUndefined])%list).
Proof.
  intros this table info Hsome Hnoid.
  rewrite (updateOneObject_program this table info Hsome).
  now rewrite (get_absent info "id" Hnoid).
Qed.

(** ** Placeholders and arguments *)

(** X7.  With a table and fields that contain no [?], [updateOne] never
    sends a statement whose placeholders and arguments differ in number: it
    throws, or the statement has one placeholder per argument. *)
Theorem updateOne_placeholders_match :
  forall (this : Connection) (table : string) (id : Scalar)
         (fields : list string) (values : list Scalar),
    plain table = true ->
    forallb plain fields = true ->
    aligned_or_throws (doUpdate this) (updateOne this table id fields values).
Proof.
  intros this table id fields values Htable Hfields.
  unfold updateOne.
  destruct (Nat.eqb (length fields) 0); [exact I|].
  destruct (Nat.eqb_spec (length values) (length fields)) as [Hlen|_];
    [|exact I].
  cbn [negb aligned_or_throws]. cbv zeta.
  eexists. eexists. split; [reflexivity|].
  change (join ", " (map (fun field => field ++ " = ?") fields))
    with (assignments ", " fields).
  rewrite !count_placeholders_append,
    (count_placeholders_assignments ", " fields eq_refl Hfields),
    (count_placeholders_plain _ Htable), length_app, Hlen.
  simpl. lia.
Qed.

(** X8.  The same for [updateOneByFields], when the where-fields contain
    no [?] either. *)
Theorem updateOneByFields_placeholders_match :
  forall (this : Connection) (table : string)
         (fields : list string) (values : list Scalar)
         (whereFields : list string) (whereValues : list Scalar),
    plain table = true ->
    forallb plain fields = true ->
    forallb plain whereFields = true ->
    aligned_or_throws (doUpdate this)
      (updateOneByFields this table fields values whereFields whereValues).
Proof.
  intros this table fields values whereFields whereValues
         Htable Hfields Hwhere.
  unfold updateOneByFields.
  destruct (Nat.eqb (length fields) 0); [exact I|].
  destruct (Nat.eqb_spec (length values) (length fields)) as [Hlen|_];
    [|exact I].
  destruct (Nat.eqb_spec (length whereFields) (length whereValues))
    as [Hwlen|_]; [|exact I].
  cbn [negb aligned_or_throws]. cbv zeta.
  eexists. eexists. split; [reflexivity|].
  change (join ", " (map (fun field => field ++ " = ?") fields))
    with (assignments ", " fields).
  change (join " AND " (map (fun field => field ++ " = ?") whereFields))
    with (assignments " AND " whereFields).
  rewrite !count_placeholders_append,
    (count_placeholders_assignments ", " fields eq_refl Hfields),
    (count_placeholders_assignments " AND " whereFields eq_refl Hwhere),
    (count_placeholders_plain _ Htable), length_app, Hlen, Hwlen.
  simpl. lia.
Qed.

(** X9.  With a table and fields that contain no [?] and rows that each
    have one value per field, the statement of [insertMany] has one
    placeholder per argument. *)
Theorem insertMany_placeholders_match :
  forall (max_arguments : positive) (this : Connection) (table : string)
         (fields : list string) (rows : list (list Scalar)),
    plain table = true ->
    forallb plain fields = true ->
    forallb (fun row => Nat.eqb (length row) (length fields)) rows = true ->
    aligned_or_throws (doInsert this)
      (insertMany max_arguments this table fields rows).
Proof.
  intros max_arguments this table fields rows Htable Hfields Hrows.
  rewrite insertMany_cases.
  destruct (length rows <=? Pos.to_nat max_arguments)%nat; [|exact I].
  unfold aligned_or_throws. eexists. eexists. split; [reflexivity|].
  rewrite count_placeholders_insert_many by assumption.
  now rewrite (length_concat_rows _ _ Hrows).
Qed.

(** X10.  [insertManyObjects] needs no such agreement between the records:
    when the table and the first record's keys contain no [?], it throws or
    sends a statement with one placeholder per argument, whatever keys the
    other records have. *)
Theorem insertManyObjects_placeholders_match :
  forall (max_arguments : positive) (this : Connection) (table : string)
         (objects : list Record),
    plain table = true ->
    forallb plain (match objects with
                   | [] => []
                   | first :: _ => ownKeys first
                   end) = true ->
    aligned_or_throws (doInsert this)
      (insertManyObjects max_arguments this table objects).
Proof.
  intros max_arguments this table objects Htable Hkeys.
  destruct objects as [|first rest]; [exact I|].
  rewrite insertManyObjects_cases.
  destruct (S (length rest) <=? Pos.to_nat max_arguments)%nat; [|exact I].
  unfold aligned_or_throws.
  set (rows := map (fun obj => map (fun key => read obj key) (ownKeys first))
                 (first :: rest)).
  eexists. eexists. split; [reflexivity|].
  rewrite count_placeholders_insert_many by assumption.
  replace (S (length rest)) with (length rows)
    by (unfold rows; now rewrite length_map).
  apply eq_sym, length_concat_rows.
  apply forallb_forall. intros row Hrow.
  apply in_map_iff in Hrow as (obj & <- & _).
  apply Nat.eqb_eq, length_map.
Qed.

(** ** Initialization *)

(** X11.  After [init] the pool holder returns the pool [mysql.createPool]
    made from the merged configuration.  In that configuration every key
    of [info] has the value [info] gives it; of the remaining keys only
    [connectionLimit] and [queueLimit] are set, to 20 and 10. *)
Theorem init_pool_config :
  forall (createPool : Record -> Pool) (this : Dbc) (info : Record),
    getPool (dbcPooler (init createPool this info))
    = inr (createPool (poolConfig info))
    /\ forall key,
         get (poolConfig info) key
         = if existsb (String.eqb key) (ownKeys info) then get info key
           else if String.eqb key "connectionLimit" then SNum 20
           else if String.eqb key "queueLimit" then SNum 10
           else SUndefined.
Proof.
  intros createPool this info. split; [reflexivity|].
  intro key. unfold poolConfig, Object_assign. rewrite get_assign_keys.
  destruct (existsb (String.eqb key) (ownKeys info)); [reflexivity|].
  cbn [get].
  rewrite (String.eqb_sym "connectionLimit"), (String.eqb_sym "queueLimit").
  reflexivity.
Qed.

(** ** The helpers and the wrapper against an arbitrary driver *)

Section Coverage.
Variable World : Type.
Variable getConnection_step : Pool -> World -> Settled ConnId * World.
Variable query_step :
  ConnId -> string -> list Scalar -> World -> Settled QueryResult * World.
Variable release_step : ConnId -> World -> World.

Local Abbreviation execute :=
  (exec getConnection_step query_step release_step).
Local Abbreviation single_query :=
  (one_round_trip getConnection_step query_step release_step).

Lemma exec_doSelect (this : Connection) (sql : string) (args : list Scalar)
    (w : World) :
  execute (doSelect this sql args) w
  = (match fst (query_step (conn this) sql args w) with
     | Fulfilled result => Returned (fst result)
     | Rejected e => Thrown e
     end,
     [EvQuery (conn this) sql args],
     snd (query_step (conn this) sql args w)).
Proof.
  unfold doSelect. rewrite exec_bind, exec_conn_query.
  destruct (query_step (conn this) sql args w) as [[r|e] w1]; reflexivity.
Qed.

Lemma exec_doSelectOne (this : Connection) (sql : string) (args : list Scalar)
    (w : World) :
  execute (doSelectOne this sql args) w
  = (match fst (query_step (conn this) sql args w) with
     | Fulfilled result =>
         match element0 (fst result) with
         | inl e => Thrown e
         | inr first => Returned (js_or first (VScalar SNull))
         end
     | Rejected e => Thrown e
     end,
     [EvQuery (conn this) sql args],
     snd (query_step (conn this) sql args w)).
Proof.
  unfold doSelectOne. rewrite exec_bind, exec_doSelect.
  destruct (query_step (conn this) sql args w) as [[r|e] w1]; cbn [fst snd].
  - destruct (element0 (fst r)); reflexivity.
  - reflexivity.
Qed.

Lemma exec_doDelete (this : Connection) (sql : string) (args : list Scalar)
    (w : World) :
  execute (doDelete this sql args) w
  = execute (doUpdate this sql args) w.
Proof. reflexivity. Qed.

Lemma single_query_doSelect (this : Connection) (sql : string)
    (args : list Scalar) :
  single_query this (doSelect this sql args).
Proof. intro w. rewrite exec_doSelect. eauto. Qed.

Lemma single_query_doSelectOne (this : Connection) (sql : string)
    (args : list Scalar) :
  single_query this (doSelectOne this sql args).
Proof. intro w. rewrite exec_doSelectOne. eauto. Qed.

Lemma single_query_doInsert (this : Connection) (sql : string)
    (args : list Scalar) :
  single_query this (doInsert this sql args).
Proof.
  intro w.
  destruct (exec_doInsert getConnection_step query_step release_step
              this sql args w) as [o Ho].
  eauto.
Qed.

Lemma single_query_doDelete (this : Connection) (sql : string)
    (args : list Scalar) :
  single_query this (doDelete this sql args).
Proof.
  intro w. rewrite exec_doDelete.
  destruct (exec_doUpdate getConnection_step query_step release_step
              this sql args w) as [o Ho].
  eauto.
Qed.

(** X12.  When the driver resolves with an array of rows, [doSelectOne]
    resolves with the first row, and with [null] (not [undefined]) when
    the array is empty; it makes the one query. *)
Theorem doSelectOne_first_row_or_null :
  forall (this : Connection) (sql : string) (args : list Scalar)
         (w w1 : World) (rows : list Record) (fields : Value),
    query_step (conn this) sql args w = (Fulfilled (VArray rows, fields), w1) ->
    execute (doSelectOne this sql args) w
    = (Returned (match rows with
                 | [] => VScalar SNull
                 | row :: _ => VObject row
                 end),
       [EvQuery (conn this) sql args], w1).
Proof.
  intros this sql args w w1 rows fields Hquery.
  rewrite exec_doSelectOne, Hquery. destruct rows; reflexivity.
Qed.

(** X13.  When the driver rejects the query, each of the five helpers is
    rejected with the driver's error, unchanged, after that one query. *)
Theorem helpers_propagate_rejection :
  forall (this : Connection) (sql : string) (args : list Scalar)
         (w w1 : World) (e : Exn),
    query_step (conn this) sql args w = (Rejected e, w1) ->
    let rejected := (@Thrown Value e, [EvQuery (conn this) sql args], w1) in
    execute (doSelect this sql args) w = rejected
    /\ execute (doSelectOne this sql args) w = rejected
    /\ execute (doInsert this sql args) w = rejected
    /\ execute (doUpdate this sql args) w = rejected
    /\ execute (doDelete this sql args) w = rejected.
Proof.
  intros this sql args w w1 e Hquery rejected. unfold rejected.
  repeat split.
  - now rewrite exec_doSelect, Hquery.
  - now rewrite exec_doSelectOne, Hquery.
  - unfold doInsert. now rewrite exec_bind, exec_conn_query, Hquery.
  - unfold doUpdate. now rewrite exec_bind, exec_conn_query, Hquery.
  - unfold doDelete. now rewrite exec_bind, exec_conn_query, Hquery.
Qed.

(** X14.  Each select, insert-one and delete method makes exactly one call
    to the driver, a query on its own connection: none acquires or
    releases a connection, and none sends a second statement, whatever the
    driver answers. *)
Theorem crud_methods_one_round_trip :
  forall (this : Connection) (table field : string) (value : Scalar)
         (fields : list string) (values : list Scalar) (info : Record),
    single_query this (selectAll this table)
    /\ single_query this (selectManyByField this table field value)
    /\ single_query this (selectManyByFields this table fields values)
    /\ single_query this (selectOneByField this table field value)
    /\ single_query this (selectById this table value)
    /\ single_query this (selectOneByFields this table fields values)
    /\ single_query this (selectOneByObject this table info)
    /\ single_query this (insertOne this table fields values)
    /\ single_query this (insertOneObject this table info)
    /\ single_query this (deleteByField this table field value)
    /\ single_query this (deleteById this table value).
Proof.
  intros this table field value fields values info.
  repeat split;
    first [ apply single_query_doSelect
          | apply single_query_doSelectOne
          | apply single_query_doInsert
          | apply single_query_doDelete ].
Qed.

(** X15.  A wrapped function called while the pool holder has no pool is
    not invoked: the call is rejected with the "database not connected"
    error and nothing is asked of the driver. *)
Theorem withConnection_not_connected :
  forall (pooler : Pooler)
         (fn : Connection -> list Value -> Sync (Prog Value))
         (arguments : list Value) (w : World),
    pool pooler = None ->
    execute (withConnection pooler fn arguments) w
    = (Thrown (Error "database not connected"), [], w).
Proof.
  intros pooler fn arguments w Hnone.
  unfold withConnection, Connection_run, Connection_new, getPool.
  rewrite Hnone. reflexivity.
Qed.

(** X16.  When the pool refuses to hand out a connection, the wrapped
    function is not invoked and nothing is released: the call is rejected
    with the pool's error after the one [getConnection]. *)
Theorem withConnection_acquisition_rejected :
  forall (pooler : Pooler) (p : Pool)
         (fn : Connection -> list Value -> Sync (Prog Value))
         (arguments : list Value) (w w1 : World) (e : Exn),
    getPool pooler = inr p ->
    getConnection_step p w = (Rejected e, w1) ->
    execute (withConnection pooler fn arguments) w
    = (Thrown e, [EvGetConnection p], w1).
Proof.
  intros pooler p fn arguments w w1 e Hpool Hget.
  unfold withConnection, Connection_run, Connection_new.
  rewrite Hpool. cbn [bind exec]. rewrite Hget. reflexivity.
Qed.

(** X17.  When the driver rejects BEGIN, [doTransaction] is rejected with
    that error: the unit of work is not started and neither COMMIT nor
    ROLLBACK is sent. *)
Theorem doTransaction_begin_rejected :
  forall (this : Connection) (fn : Connection -> Sync (Prog Value))
         (w w1 : World) (e : Exn),
    query_step (conn this) "BEGIN" [] w = (Rejected e, w1) ->
    execute (doTransaction this fn) w
    = (Thrown e, [EvQuery (conn this) "BEGIN" []], w1).
Proof.
  intros this fn w w1 e Hbegin.
  unfold doTransaction, doBegin.
  rewrite exec_bind, exec_conn_query, Hbegin. reflexivity.
Qed.

(** X18.  When the unit of work completes and the driver then rejects the
    COMMIT with an error that is not a [RollbackError], [doTransaction]
    sends one ROLLBACK after the COMMIT and is rejected: with the COMMIT's
    error if the ROLLBACK succeeds, with the ROLLBACK's error if not.  The
    unit of work's result is lost. *)
Theorem doTransaction_commit_rejected_rolls_back :
  forall (this : Connection) (fn : Connection -> Sync (Prog Value))
         (w w1 w2 w3 w4 : World) (r0 : QueryResult) (res : Value)
         (tr : list Event) (err : Exn) (s : Settled QueryResult),
    query_step (conn this) "BEGIN" [] w = (Fulfilled r0, w1) ->
    execute (await (fn this)) w1 = (Returned res, tr, w2) ->
    query_step (conn this) "COMMIT" [] w2 = (Rejected err, w3) ->
    instanceof_RollbackError err = false ->
    query_step (conn this) "ROLLBACK" [] w3 = (s, w4) ->
    execute (doTransaction this fn) w
    = (Thrown (match s with
               | Fulfilled _ => err
               | Rejected err' => err'
               end),
       (EvQuery (conn this) "BEGIN" [] :: tr
        ++ [EvQuery (conn this) "COMMIT" [];
            EvQuery (conn this) "ROLLBACK" []])%list, w4).
Proof.
  intros this fn w w1 w2 w3 w4 r0 res tr err s
         Hbegin Hwork Hcommit Hkind Hrollback.
  erewrite exec_doTransaction by exact Hbegin.
  rewrite Hwork, Hcommit, Hrollback, Hkind.
  destruct s; reflexivity.
Qed.

(** X19.  A transaction run inside a wrapped function keeps the
    connection until it is over: when the connection is acquired, BEGIN
    succeeds, the unit of work completes and COMMIT succeeds, the calls on
    the driver are [getConnection], BEGIN, the unit of work's own, COMMIT
    and then the release, and the wrapper returns the unit of work's
    result. *)
Theorem withConnection_transaction_releases_last :
  forall (pooler : Pooler) (p : Pool) (c : ConnId)
         (work : Connection -> Sync (Prog Value)) (arguments : list Value)
         (w w0 w1 w2 w3 : World) (r0 r1 : QueryResult) (res : Value)
         (tr : list Event),
    getPool pooler = inr p ->
    getConnection_step p w = (Fulfilled c, w0) ->
    query_step c "BEGIN" [] w0 = (Fulfilled r0, w1) ->
    execute (await (work {| conn := c |})) w1 = (Returned res, tr, w2) ->
    query_step c "COMMIT" [] w2 = (Fulfilled r1, w3) ->
    execute
      (withConnection pooler
         (fun this _ => inr (doTransaction this work)) arguments) w
    = (Returned res,
       (EvGetConnection p :: EvQuery c "BEGIN" [] :: tr
        ++ [EvQuery c "COMMIT" []; EvRelease c])%list,
       release_step c w3).
Proof.
  intros pooler p c work arguments w w0 w1 w2 w3 r0 r1 res tr
         Hpool Hget Hbegin Hwork Hcommit.
  unfold withConnection, Connection_run, Connection_new.
  rewrite Hpool. cbn [bind exec]. rewrite Hget. cbn [settle bind await].
  rewrite exec_try_finally_release.
  erewrite exec_doTransaction by exact Hbegin.
  rewrite Hwork. cbn [conn]. rewrite Hcommit.
  cbn [app]. rewrite <- app_assoc. reflexivity.
Qed.

End Coverage.

(** ** The same on examples *)

(** [selectOneByObject] and [insertOneObject] on
    [{id: 5, ctime: X, mtime: Y, name: 'n'}]. *)
Lemma object_variants_align_witness :
  selectOneByObject sample_connection "t" sample_record
  = selectOneByFields sample_connection "t"
      ["id"; "ctime"; "mtime"; "name"] [SNum 5; SStr "X"; SStr "Y"; SStr "n"]
  /\ insertOneObject sample_connection "t" sample_record
     = insertOne sample_connection "t"
         ["id"; "ctime"; "mtime"; "name"] [SNum 5; SStr "X"; SStr "Y"; SStr "n"].
Proof.
  exact (@object_variants_align sample_connection "t" sample_record eq_refl).
Defined.

(** Two records; the second has neither [b] nor [toString]. *)
Lemma insertManyObjects_arguments_witness :
  exists args,
    insertManyObjects 100 sample_connection "t"
      [[("a", SNum 1); ("b", SNum 2); ("toString", SStr "s")]; [("a", SNum 3)]]
    = inr (doInsert sample_connection
             "INSERT INTO t (a, b, toString) VALUES (?, ?, ?), (?, ?, ?)" args)
    /\ nth_error args 4 = Some SUndefined
    /\ nth_error args 5 = Some (SInherited "toString").
Proof.
  destruct (@insertManyObjects_arguments 100 sample_connection "t"
              [("a", SNum 1); ("b", SNum 2); ("toString", SStr "s")]
              [[("a", SNum 3)]])
    as (args & Hcall & _ & _ & Hmissing); [simpl; lia|].
  exists args. split; [exact Hcall|]. split.
  - exact (Hmissing 1 1 [("a", SNum 3)] "b" eq_refl eq_refl eq_refl).
  - exact (Hmissing 1 2 [("a", SNum 3)] "toString" eq_refl eq_refl eq_refl).
Defined.

(** [updateOneObject('t', {name: 'n', age: 3})] *)
Lemma updateOneObject_without_id_witness :
  updateOneObject sample_connection "t" anonymous_record
  = inr (doUpdate sample_connection
           "UPDATE t SET name = ?, age = ? WHERE id = ?"
           [SStr "n"; SNum 3; SUndefined]).
Proof.
  exact (@updateOneObject_without_id sample_connection "t" anonymous_record
           eq_refl eq_refl).
Defined.

Lemma updateOne_placeholders_match_witness :
  aligned_or_throws (doUpdate sample_connection)
    (updateOne sample_connection "t" (SNum 5) ["a"; "b"] [SNum 1; SNum 2]).
Proof.
  exact (@updateOne_placeholders_match sample_connection "t" (SNum 5)
           ["a"; "b"] [SNum 1; SNum 2] eq_refl eq_refl).
Defined.

Lemma updateOneByFields_placeholders_match_witness :
  aligned_or_throws (doUpdate sample_connection)
    (updateOneByFields sample_connection "t"
       ["a"; "b"] [SNum 1; SNum 2] ["c"] [SNum 3]).
Proof.
  exact (@updateOneByFields_placeholders_match sample_connection "t"
           ["a"; "b"] [SNum 1; SNum 2] ["c"] [SNum 3]
           eq_refl eq_refl eq_refl).
Defined.

Lemma insertMany_placeholders_match_witness :
  aligned_or_throws (doInsert sample_connection)
    (insertMany 100 sample_connection "t" ["a"; "b"]
       [[SNum 1; SNum 2]; [SNum 3; SNum 4]]).
Proof.
  exact (@insertMany_placeholders_match 100 sample_connection "t" ["a"; "b"]
           [[SNum 1; SNum 2]; [SNum 3; SNum 4]] eq_refl eq_refl eq_refl).
Defined.

Lemma insertManyObjects_placeholders_match_witness :
  aligned_or_throws (doInsert sample_connection)
    (insertManyObjects 100 sample_connection "t"
       [[("a", SNum 1); ("b", SNum 2)]; [("a", SNum 3)]]).
Proof.
  exact (@insertManyObjects_placeholders_match 100 sample_connection "t"
           [[("a", SNum 1); ("b", SNum 2)]; [("a", SNum 3)]]
           eq_refl eq_refl).
Defined.

(** No row matches: [null]. *)
Lemma doSelectOne_first_row_or_null_witness :
  exec mock_getConnection (rows_query []) mock_release
    (selectById sample_connection "t" (SNum 5)) 0
  = (Returned (VScalar SNull),
     [EvQuery 7 "SELECT * FROM t WHERE id = ? LIMIT 1" [SNum 5]], 1).
Proof.
  exact (@doSelectOne_first_row_or_null
           nat mock_getConnection (rows_query []) mock_release
           sample_connection "SELECT * FROM t WHERE id = ? LIMIT 1" [SNum 5]
           0 1 [] undefined eq_refl).
Defined.

Lemma helpers_propagate_rejection_witness :
  mock_exec ["DELETE FROM t WHERE id = ?"]
    (deleteById sample_connection "t" (SNum 5)) 0
  = (Thrown (DriverError "ECONNRESET"),
     [EvQuery 7 "DELETE FROM t WHERE id = ?" [SNum 5]], 1).
Proof.
  refine (proj2 (proj2 (proj2 (proj2
    (@helpers_propagate_rejection
       nat mock_getConnection (mock_query ["DELETE FROM t WHERE id = ?"])
       mock_release sample_connection "DELETE FROM t WHERE id = ?" [SNum 5]
       0 1 (DriverError "ECONNRESET") eq_refl))))).
Defined.

(** A wrapped function called before [init]. *)
Lemma withConnection_not_connected_witness :
  mock_exec [] (withConnection (dbcPooler createDbc) throwing_function []) 0
  = (Thrown (Error "database not connected"), [], 0).
Proof.
  exact (@withConnection_not_connected
           nat mock_getConnection (mock_query []) mock_release
           (dbcPooler createDbc) throwing_function [] 0 eq_refl).
Defined.

Lemma withConnection_acquisition_rejected_witness :
  exec failing_getConnection (mock_query []) mock_release
    (withConnection {| pool := Some 1 |} transaction_function []) 0
  = (Thrown (DriverError "ER_CON_COUNT_ERROR"), [EvGetConnection 1], 0).
Proof.
  exact (@withConnection_acquisition_rejected
           nat failing_getConnection (mock_query []) mock_release
           {| pool := Some 1 |} 1 transaction_function [] 0 0
           (DriverError "ER_CON_COUNT_ERROR") eq_refl eq_refl).
Defined.

Lemma doTransaction_begin_rejected_witness :
  mock_exec ["BEGIN"] (doTransaction sample_connection good_work) 0
  = (Thrown (DriverError "ECONNRESET"), [EvQuery 7 "BEGIN" []], 1).
Proof.
  exact (@doTransaction_begin_rejected
           nat mock_getConnection (mock_query ["BEGIN"]) mock_release
           sample_connection good_work 0 1 (DriverError "ECONNRESET") eq_refl).
Defined.

Lemma doTransaction_commit_rejected_rolls_back_witness :
  mock_exec ["COMMIT"] (doTransaction sample_connection good_work) 0
  = (Thrown (DriverError "ECONNRESET"),
     [EvQuery 7 "BEGIN" [];
      EvQuery 7 "INSERT INTO t (a) VALUES (?)" [SNum 1];
      EvQuery 7 "COMMIT" [];
      EvQuery 7 "ROLLBACK" []], 4).
Proof.
  exact (@doTransaction_commit_rejected_rolls_back
           nat mock_getConnection (mock_query ["COMMIT"]) mock_release
           sample_connection good_work 0 1 2 3 4 ok_result (VScalar (SNum 1))
           [EvQuery 7 "INSERT INTO t (a) VALUES (?)" [SNum 1]]
           (DriverError "ECONNRESET") (Fulfilled ok_result)
           eq_refl eq_refl eq_refl eq_refl eq_refl).
Defined.

Lemma withConnection_transaction_releases_last_witness :
  mock_exec [] (withConnection {| pool := Some 1 |} transaction_function []) 0
  = (Returned (VScalar (SNum 1)),
     [EvGetConnection 1;
      EvQuery 7 "BEGIN" [];
      EvQuery 7 "INSERT INTO t (a) VALUES (?)" [SNum 1];
      EvQuery 7 "COMMIT" [];
      EvRelease 7], 3).
Proof.
  exact (@withConnection_transaction_releases_last
           nat mock_getConnection (mock_query []) mock_release
           {| pool := Some 1 |} 1 7 good_work [] 0 0 1 2 3 ok_result ok_result
           (VScalar (SNum 1))
           [EvQuery 7 "INSERT INTO t (a) VALUES (?)" [SNum 1]]
           eq_refl eq_refl eq_refl eq_refl eq_refl).
Defined.
